(** * OHLCVProvider: a shallow embedding of src/ohlcv-provider.js

    The provider keeps a trailing window of candles in a deque.  It is
    written as JavaScript async functions; every [await] is a suspension
    point, and the code between two suspension points runs to completion.
    The embedding therefore has
    - pure functions for the synchronous pieces (the deque operations,
      [removeOldCandles], one pass of the backfill loop body, the two
      halves of a live tick), and
    - a labelled step function over provider states whose labels are the
      things the JavaScript event loop can deliver: a resolved or rejected
      fetch, an elapsed sleep, a firing timer.

    Numbers: timestamps, [days], [limit] and [updateInterval] are integers
    well inside the range in which JavaScript number arithmetic is exact,
    so they are [Z].  [Date.now()] is an input of every function that reads
    the clock. *)

From stdpp Require Import base tactics option list sorting strings gmap.
From Stdlib Require Import ZArith Lia.
Local Open Scope Z_scope.

(** ** Completions and the few JavaScript values that matter *)

Inductive JsError :=
| Error (message : string)   (* new Error(message) *)
| TypeError                  (* property read on undefined *)
| RangeError                 (* Deque.getElementByPos outside [0, size) *)
| FetchError.                (* the ccxt client rejected the request *)

Inductive completion (A : Type) :=
| Return (a : A)
| Throw (e : JsError).
Arguments Return {A} a.
Arguments Throw {A} e.

#[global] Instance completion_bind : MBind completion :=
  λ A B f m, match m with Return a => f a | Throw e => Throw e end.

#[global] Instance JsError_eq_dec : EqDecision JsError.
Proof. solve_decision. Defined.

(** A number that may be NaN.  Only the [since] argument handed to the
    exchange client needs it: it is a timestamp plus a registry lookup,
    and a lookup of an unregistered key is [undefined]. *)
Inductive jsnum :=
| Num (z : Z)
| NaN.

#[global] Instance jsnum_eq_dec : EqDecision jsnum.
Proof. solve_decision. Defined.

(** A candle is the array [[timestamp, open, high, low, close, volume]]
    that ccxt returns; [candle[0]] is [timestamp].  The other five entries
    are passed through untouched. *)
Record Candle := mkCandle {
  timestamp : Z;
  open_ : Z;
  high : Z;
  low : Z;
  close : Z;
  volume : Z
}.

#[global] Instance Candle_eq_dec : EqDecision Candle.
Proof. solve_decision. Defined.

(** [x[0]] where [x] is either a candle or [undefined]. *)
Definition index0 (x : option Candle) : completion Z :=
  match x with
  | Some candle => Return (timestamp candle)
  | None => Throw TypeError
  end.

(** What [fetchOHLCV] delivers when its promise settles. *)
Inductive FetchResult :=
| Chunk (candles : list Candle)   (* resolved *)
| Failed.                         (* rejected *)

(** ** const TIMEFRAMES_IN_MILLISECONDS = Object.freeze({ "1m": 60000 }) *)

Definition TIMEFRAMES_IN_MILLISECONDS : gmap string Z := {[ "1m" := 60000 ]}.

(** [Object.keys(TIMEFRAMES_IN_MILLISECONDS).includes(timeframe)] *)
Definition keys_include (timeframe : string) : bool :=
  bool_decide (timeframe ∈ (map_to_list TIMEFRAMES_IN_MILLISECONDS).*1).

(** [ts + TIMEFRAMES_IN_MILLISECONDS[timeframe]]: number plus [undefined]
    is NaN. *)
Definition plus_timeframe (ts : Z) (timeframe : string) : jsnum :=
  match TIMEFRAMES_IN_MILLISECONDS !! timeframe with
  | Some ms => Num (ts + ms)
  | None => NaN
  end.

(** ** The deque of [@js-sdsl/deque], as the provider uses it

    The class is imported, not part of the repository.  Its documented
    behaviour on an empty container: [front()] and [back()] return
    [undefined], [popFront()] does nothing, and [getElementByPos] throws a
    RangeError for a position outside [0, size). *)
Module Deque.
Definition t := list Candle.

Definition empty : t := [].

Definition pushBack (candle : Candle) (d : t) : t := d ++ [candle].

Definition popFront (d : t) : t := tail d.

Definition front (d : t) : option Candle := head d.

Definition back (d : t) : option Candle := last d.

Definition size (d : t) : Z := Z.of_nat (length d).

Definition getElementByPos (pos : Z) (d : t) : completion Candle :=
  if bool_decide (0 ≤ pos < size d) then
    match d !! Z.to_nat pos with
    | Some candle => Return candle
    | None => Throw RangeError
    end
  else Throw RangeError.

(** [chunk.forEach((candle) => deque.pushBack(candle))] *)
Definition pushBack_each (chunk : list Candle) (d : t) : t :=
  foldl (λ acc candle, pushBack candle acc) d chunk.
End Deque.

(** ** The provider object: the private fields of class OHLCVProvider

    [#ccxtClient] is the environment (it answers through [FetchResult]);
    [#watcher] is the timer handle, carried by the control state below. *)
Record Provider := mkProvider {
  symbol : string;
  timeframe : string;
  days : Z;
  updateInterval : Z;
  limit : Z;
  deque : Deque.t;
  isReady : bool
}.

Definition set_deque (d : Deque.t) (p : Provider) : Provider :=
  mkProvider (symbol p) (timeframe p) (days p) (updateInterval p) (limit p)
             d (isReady p).

Definition set_isReady (b : bool) (p : Provider) : Provider :=
  mkProvider (symbol p) (timeframe p) (days p) (updateInterval p) (limit p)
             (deque p) b.

(** #getTimestampForDaysAgo(days), with [Date.now()] passed in. *)
Definition getTimestampForDaysAgo (now : Z) (days : Z) : Z :=
  now - days * 24 * 60 * 60 * 1000.

(** The [for (;;)] loop of #removeOldCandles.  Each pass either pops the
    front candle, returns, or faults on [undefined[0]]; the recursion is on
    the remaining candles. *)
Fixpoint removeOldCandles_loop (sinceDate : Z) (d : Deque.t)
  : completion unit * Deque.t :=
  match d with
  | [] => (Throw TypeError, d)              (* front() is undefined *)
  | candle :: rest =>
      if bool_decide (timestamp candle < sinceDate)
      then removeOldCandles_loop sinceDate rest     (* popFront() *)
      else (Return (), d)
  end.

(** #removeOldCandles() *)
Definition removeOldCandles (now : Z) (p : Provider)
  : completion unit * Provider :=
  let sinceDate := getTimestampForDaysAgo now (days p) in
  let '(r, d) := removeOldCandles_loop sinceDate (deque p) in
  (r, set_deque d p).

(** ** Read accessors *)

Definition isDataAvailable (p : Provider) : bool := isReady p.

Definition get (id : Z) (p : Provider) : completion Candle :=
  Deque.getElementByPos id (deque p).

(** The accessors hand back whatever the deque hands back; [None] is the
    JavaScript value [undefined]. *)
Definition getLast (p : Provider) : completion (option Candle) :=
  Return (Deque.back (deque p)).

Definition getFirst (p : Provider) : completion (option Candle) :=
  Return (Deque.front (deque p)).

Definition getAllInArray (p : Provider) : list Candle :=
  foldl (λ array element, array ++ [element]) [] (deque p).

(** ** #loadInitialData: one pass of the [while] body

    The local variables of the function. *)
Record LoopVars := mkLoopVars {
  allCandlesLoaded : bool;
  nextCandleTime : jsnum
}.

(** How a pass leaves the [try] statement: through a [break] (the empty
    chunk, or the [catch] clause), or by falling through to
    [await utils.sleep(500)]. *)
Inductive BodyExit :=
| Break
| ToSleep.

(** The statements of the [try] block after the [forEach]: they compute the
    next request time and the termination test on the updated deque. *)
Definition after_append (p : Provider) (candlesChunk : list Candle)
  : completion LoopVars :=
  lastTs ← index0 (last candlesChunk);
  let next := plus_timeframe lastTs (timeframe p) in
  frontTs ← index0 (Deque.front (deque p));
  backTs ← index0 (Deque.back (deque p));
  Return (mkLoopVars
            (bool_decide (frontTs = backTs + days p * 24 * 60 * 60 * 1000)
             || bool_decide (days p * 24 * 60 ≤ Deque.size (deque p)))
            next).

Definition loadInitialData_body (p : Provider) (v : LoopVars) (r : FetchResult)
  : Provider * LoopVars * BodyExit :=
  match r with
  | Failed => (p, v, Break)                       (* catch: log, break *)
  | Chunk candlesChunk =>
      if bool_decide (length candlesChunk = 0%nat)
      then (p, mkLoopVars true (nextCandleTime v), Break)
      else
        let p1 := set_deque (Deque.pushBack_each candlesChunk (deque p)) p in
        match after_append p1 candlesChunk with
        | Return v1 => (p1, v1, ToSleep)
        | Throw _ => (p1, v, Break)               (* catch: log, break;
                                                     the locals are dead *)
        end
  end.

(** ** Control state of the background activity *)

Inductive Pc :=
| PcFetching (v : LoopVars)   (* backfill: awaiting fetchOHLCV(.., nextCandleTime, ..) *)
| PcSleeping (v : LoopVars)   (* backfill: awaiting utils.sleep(500) *)
| PcRejected                  (* #loadInitialData threw: #start's promise rejected, no timer exists *)
| PcPolling                   (* #start: the 1000 ms interval that waits for isReady *)
| PcMonitoring.               (* #startMonitoring: the watcher interval is running *)

(** [inflight] holds the [since] argument of every live-tick fetch that has
    been issued and has not settled yet.  [setInterval] does not wait for
    the async callback, so several can be outstanding. *)
Record State := mkState {
  provider : Provider;
  pc : Pc;
  inflight : list jsnum
}.

(** The two statements after the [while] loop:
    [this.#removeOldCandles(); this.#isReady = true;].  When the first one
    throws, the async function rejects and #start never reaches its
    [setInterval]. *)
Definition loadInitialData_exit (now : Z) (p : Provider) : Provider * Pc :=
  match removeOldCandles now p with
  | (Return _, p1) => (set_isReady true p1, PcPolling)
  | (Throw _, p1) => (p1, PcRejected)
  end.

(** #startWatchingForNewOHLCV up to its [await]: the argument of the fetch,
    or the fault of [back()[0]] on an empty deque. *)
Definition startWatchingForNewOHLCV_request (p : Provider) : completion jsnum :=
  backTs ← index0 (Deque.back (deque p));
  Return (plus_timeframe backTs (timeframe p)).

(** #startWatchingForNewOHLCV after its [await]. *)
Definition startWatchingForNewOHLCV_resume
    (now : Z) (r : FetchResult) (p : Provider) : Provider :=
  match r with
  | Failed => set_isReady false p                           (* catch *)
  | Chunk candles =>
      let p1 := set_deque (Deque.pushBack_each candles (deque p)) p in
      match removeOldCandles now p1 with
      | (Return _, p2) => set_isReady true p2
      | (Throw _, p2) => set_isReady false p2               (* catch *)
      end
  end.

(** A whole tick whose fetch settles before anything else happens. *)
Definition startWatchingForNewOHLCV
    (now : Z) (r : FetchResult) (p : Provider) : Provider :=
  match startWatchingForNewOHLCV_request p with
  | Return _ => startWatchingForNewOHLCV_resume now r p
  | Throw _ => set_isReady false p                          (* catch *)
  end.

(** ** What the event loop can deliver *)

Inductive Event :=
| EvFetchDone (r : FetchResult) (now : Z)   (* the backfill fetch settled *)
| EvWake (now : Z)                          (* utils.sleep(500) elapsed *)
| EvPoll                                    (* the 1000 ms interval of #start fired *)
| EvTick                                    (* the watcher interval fired *)
| EvTickDone (i : nat) (r : FetchResult) (now : Z).
                                            (* the i-th outstanding tick fetch settled *)

(** The callback of the 1000 ms interval in #start: once [isReady] holds it
    calls #startMonitoring and clears itself. *)
Definition start_poll (s : State) : State :=
  if isReady (provider s)
  then mkState (provider s) PcMonitoring (inflight s)
  else s.

(** The callback of the watcher interval in #startMonitoring: unless the
    provider is ready the tick is skipped; otherwise
    #startWatchingForNewOHLCV runs up to its [await]. *)
Definition startMonitoring_tick (s : State) : State :=
  if isReady (provider s)
  then match startWatchingForNewOHLCV_request (provider s) with
       | Return since =>
           mkState (provider s) PcMonitoring (inflight s ++ [since])
       | Throw _ =>
           mkState (set_isReady false (provider s)) PcMonitoring (inflight s)
       end
  else s.

(** [now] in [EvFetchDone] and [EvWake] is the clock read by
    #removeOldCandles should the loop be left in that turn. *)
Definition step (s : State) (e : Event) : option State :=
  let p := provider s in
  match e, pc s with
  | EvFetchDone r now, PcFetching v =>
      match loadInitialData_body p v r with
      | (p1, v1, Break) =>
          let '(p2, pc2) := loadInitialData_exit now p1 in
          Some (mkState p2 pc2 (inflight s))
      | (p1, v1, ToSleep) => Some (mkState p1 (PcSleeping v1) (inflight s))
      end
  | EvWake now, PcSleeping v =>
      if allCandlesLoaded v                       (* while (!allCandlesLoaded) *)
      then let '(p2, pc2) := loadInitialData_exit now p in
           Some (mkState p2 pc2 (inflight s))
      else Some (mkState p (PcFetching v) (inflight s))
  | EvPoll, PcPolling => Some (start_poll s)
  | EvTick, PcMonitoring => Some (startMonitoring_tick s)
  | EvTickDone i r now, PcMonitoring =>
      match inflight s !! i with
      | Some _ =>
          Some (mkState (startWatchingForNewOHLCV_resume now r p)
                        PcMonitoring (delete i (inflight s)))
      | None => None
      end
  | _, _ => None
  end.

Fixpoint run (s : State) (es : list Event) : option State :=
  match es with
  | [] => Some s
  | e :: es' =>
      match step s e with
      | Some s' => run s' es'
      | None => None
      end
  end.

(** ** constructor(symbol, ccxtClient, timeframe = "1m", days = 7,
       updateInterval = 10000, limit = 1000)

    An omitted (or [undefined]) argument is [None].  The constructor ends
    with [this.#start()], which runs synchronously through
    #loadDataInBackground into #loadInitialData up to the first [await]:
    the clock is read and the first fetch is issued. *)
Definition constructor (now : Z) (symbol : string)
    (timeframe : option string) (days updateInterval limit : option Z)
  : completion State :=
  let timeframe := default "1m"%string timeframe in
  let days := default 7 days in
  let updateInterval := default 10000 updateInterval in
  let limit := default 1000 limit in
  if negb (keys_include timeframe)
  then Throw (Error "Incorrect timeframe")
  else
    let p := mkProvider symbol timeframe days updateInterval limit
                        Deque.empty false in
    let since := getTimestampForDaysAgo now days in
    Return (mkState p (PcFetching (mkLoopVars false (Num since))) []).

(** ** The words of the specification, for comparison with the code *)

Definition dayMillis : Z := 24 * 60 * 60 * 1000.
Definition minutesPerDay : Z := 24 * 60.

(** Candles in non-decreasing timestamp order by position. *)
Definition ascending (d : list Candle) : Prop :=
  StronglySorted (λ a b, timestamp a ≤ timestamp b) d.

(** The three termination conditions of the backfill loop as section 4.3
    words them, read on the chunk just received and on the buffer after the
    chunk was appended. *)
Definition termination_conditions
    (windowDays : Z) (chunk : list Candle) (buffer : Deque.t) : Prop :=
  chunk = []
  ∨ (∃ f b, Deque.front buffer = Some f ∧ Deque.back buffer = Some b ∧
            timestamp f - timestamp b = - windowDays * dayMillis)
  ∨ windowDays * minutesPerDay ≤ Deque.size buffer.

(** Whether the backfill loop is left after this fetch result: at once by a
    [break], or after the sleep because [allCandlesLoaded] became true. *)
Definition loop_stops (p : Provider) (v : LoopVars) (r : FetchResult) : bool :=
  match loadInitialData_body p v r with
  | (_, _, Break) => true
  | (_, v1, ToSleep) => allCandlesLoaded v1
  end.

(** ** Runs of the provider *)

(** The backfill loop of #loadInitialData has not been left yet. *)
Definition backfilling (s : State) : bool :=
  match pc s with
  | PcFetching _ | PcSleeping _ => true
  | _ => false
  end.

Definition from_constructor (s0 : State) : Prop :=
  ∃ now symbol timeframe days updateInterval limit,
    constructor now symbol timeframe days updateInterval limit = Return s0.

Definition reachable (s : State) : Prop :=
  ∃ s0 es, from_constructor s0 ∧ run s0 es = Some s.

(** A property of every event of a run, read in the state the event
    arrives in. *)
Fixpoint all_steps (P : State → Event → Prop) (s : State) (es : list Event)
  : Prop :=
  match es with
  | [] => True
  | e :: es' =>
      P s e ∧ match step s e with
              | Some s' => all_steps P s' es'
              | None => True
              end
  end.

(** The contract of the exchange client (section 6): a resolved fetch
    holds candles in ascending timestamp order, none before the requested
    [since]. *)
Definition at_or_after (since : jsnum) (c : Candle) : Prop :=
  ∀ z, since = Num z → z ≤ timestamp c.

Definition chunk_ok (since : jsnum) (r : FetchResult) : Prop :=
  match r with
  | Failed => True
  | Chunk candles => ascending candles ∧ Forall (at_or_after since) candles
  end.

Definition fetch_contract (s : State) (e : Event) : Prop :=
  match e with
  | EvFetchDone r _ =>
      match pc s with
      | PcFetching v => chunk_ok (nextCandleTime v) r
      | _ => True
      end
  | EvTickDone i r _ =>
      match inflight s !! i with
      | Some since => chunk_ok since r
      | None => True
      end
  | _ => True
  end.

(** No tick of the watcher fires while the fetch of an earlier tick is
    still outstanding. *)
Definition no_overlap (s : State) (e : Event) : Prop :=
  match e with
  | EvTick => inflight s = []
  | _ => True
  end.

(** The event is the settling of a live tick that ends in the [catch]
    clause of #startWatchingForNewOHLCV: its fetch was rejected, or the
    window maintainer faulted after the append. *)
Definition tick_failed (s : State) (e : Event) : Prop :=
  match e with
  | EvTickDone _ Failed _ => True
  | EvTickDone _ (Chunk candles) now =>
      (removeOldCandles now
         (set_deque (Deque.pushBack_each candles (deque (provider s)))
                    (provider s))).1 ≠ Return ()
  | _ => False
  end.

(** ** Invariants of the reachable states *)

(** Readiness: [isReady] is false throughout the backfill, and it is only
    ever true over a non-empty buffer. *)
Definition ready_inv (s : State) : Prop :=
  (backfilling s = true → isReady (provider s) = false) ∧
  (isReady (provider s) = true → deque (provider s) ≠ []).

(** Every candle of [d] is strictly older than the request time [since]. *)
Definition before (since : jsnum) (d : list Candle) : Prop :=
  ∃ t, since = Num t ∧ Forall (λ c, timestamp c < t) d.

(** Ordering: the buffer is ascending, and every request that is
    outstanding asks for candles newer than the whole buffer. *)
Definition order_inv (s : State) : Prop :=
  timeframe (provider s) = "1m"%string ∧
  ascending (deque (provider s)) ∧
  (∀ v, pc s = PcFetching v ∨ pc s = PcSleeping v →
        before (nextCandleTime v) (deque (provider s))) ∧
  (backfilling s = true → inflight s = []) ∧
  (inflight s = [] ∨
   ∃ since, inflight s = [since] ∧ before since (deque (provider s))).

(** ** Sample values for the examples *)

Definition candle_at (ts : Z) : Candle := mkCandle ts 0 0 0 0 0.

Definition sample_provider (days : Z) (d : Deque.t) (ready : bool) : Provider :=
  mkProvider "BTC/USDT" "1m" days 10000 1000 d ready.

(** Two candles that have left a zero-day window at clock 250 and one that
    has not. *)
Definition stale_and_fresh : Provider :=
  sample_provider 0 [candle_at 100; candle_at 200; candle_at 300] true.

(** A provider whose deque has never received a candle. *)
Definition fresh_provider : Provider := sample_provider 7 Deque.empty false.

(** The provider built by [new OHLCVProvider("BTC/USDT", client, "1m", 1)]
    when the clock reads one day: its window starts at timestamp 0. *)
Definition one_day_start : State :=
  mkState (mkProvider "BTC/USDT" "1m" 1 10000 1000 Deque.empty false)
          (PcFetching (mkLoopVars false (Num 0))) [].

(** A chunk of two candles exactly one day apart. *)
Definition day_apart : list Candle := [candle_at 0; candle_at dayMillis].

(** A backfill that receives one candle, then an empty chunk, after which
    the poll of #start finds the provider ready and starts the watcher. *)
Definition backfill_events : list Event :=
  [EvFetchDone (Chunk [candle_at 0]) dayMillis; EvWake dayMillis;
   EvFetchDone (Chunk []) dayMillis; EvPoll].

Definition next_minutes : list Candle := [candle_at 60000; candle_at 120000].

(** The watcher fires once and its fetch is rejected. *)
Definition failed_tick_events : list Event :=
  backfill_events ++ [EvTick; EvTickDone 0 Failed dayMillis].

(** The watcher fires twice before the first fetch settles; both fetches
    asked for candles from 60000 on and both get the same two candles. *)
Definition overlapping_ticks_events : list Event :=
  backfill_events ++
  [EvTick; EvTick;
   EvTickDone 0 (Chunk next_minutes) dayMillis;
   EvTickDone 0 (Chunk next_minutes) dayMillis].

(** The watcher fires twice, each time after the previous fetch has
    settled: the first tick brings two candles, the second none. *)
Definition sequential_ticks_events : list Event :=
  backfill_events ++
  [EvTick; EvTickDone 0 (Chunk next_minutes) dayMillis;
   EvTick; EvTickDone 0 (Chunk []) dayMillis].

(** ** Further notions for the properties of the whole class *)

(** The constructor arguments a provider keeps: the fields that no method
    assigns after the constructor. *)
Definition configuration (p : Provider) : string * string * Z * Z * Z :=
  (symbol p, timeframe p, days p, updateInterval p, limit p).

(** The candles that the backfill fetches of a run have delivered, in the
    order of arrival. *)
Fixpoint received (es : list Event) : list Candle :=
  match es with
  | [] => []
  | EvFetchDone (Chunk candles) _ :: es' => candles ++ received es'
  | _ :: es' => received es'
  end.

(** The integers on which JavaScript number arithmetic is exact
    ([Number.MIN_SAFE_INTEGER] to [Number.MAX_SAFE_INTEGER]). *)
Definition safe_integer (z : Z) : Prop := - (2 ^ 53 - 1) ≤ z ≤ 2 ^ 53 - 1.

(** A provider holding three candles, for the accessor examples. *)
Definition three_candles : Provider :=
  sample_provider 7 [candle_at 100; candle_at 200; candle_at 300] true.

(** * Properties *)

(** ** The deque and the window maintainer *)

Lemma pushBack_each_app chunk d : Deque.pushBack_each chunk d = d ++ chunk.
Proof.
  revert d. induction chunk as [|c chunk IH]; intros d; simpl.
  - by rewrite app_nil_r.
  - unfold Deque.pushBack_each in *. simpl. rewrite IH.
    unfold Deque.pushBack. by rewrite <- app_assoc.
Qed.

(** One pass of the [for (;;)] loop, written with the deque's own
    operations as in the source. *)
Lemma removeOldCandles_loop_unfold sinceDate d :
  removeOldCandles_loop sinceDate d =
  match index0 (Deque.front d) with
  | Throw e => (Throw e, d)
  | Return ts =>
      if bool_decide (ts < sinceDate)
      then removeOldCandles_loop sinceDate (Deque.popFront d)
      else (Return (), d)
  end.
Proof. by destruct d. Qed.

(** The loop removes a prefix of stale candles.  It returns at the first
    candle inside the window and faults when it runs out of candles. *)
Lemma removeOldCandles_loop_split sinceDate d :
  ∃ evicted,
    d = evicted ++ (removeOldCandles_loop sinceDate d).2 ∧
    Forall (λ c, timestamp c < sinceDate) evicted ∧
    match (removeOldCandles_loop sinceDate d).1 with
    | Return _ => ∃ c rest, (removeOldCandles_loop sinceDate d).2 = c :: rest ∧
                            sinceDate ≤ timestamp c
    | Throw e => e = TypeError ∧ (removeOldCandles_loop sinceDate d).2 = []
    end.
Proof.
  induction d as [|c d IH]; simpl.
  - exists []. by repeat split.
  - case_bool_decide as Hc.
    + destruct IH as (ev & Heq & Hev & Hres).
      exists (c :: ev). split; [simpl; congruence|]. split; [by constructor|done].
    + exists []. repeat split; [constructor|]. exists c, d. split; [done|lia].
Qed.

Lemma removeOldCandles_fields now p :
  let p' := (removeOldCandles now p).2 in
  symbol p' = symbol p ∧ timeframe p' = timeframe p ∧ days p' = days p ∧
  updateInterval p' = updateInterval p ∧ limit p' = limit p ∧
  isReady p' = isReady p ∧
  deque p' = (removeOldCandles_loop (getTimestampForDaysAgo now (days p)) (deque p)).2 ∧
  (removeOldCandles now p).1 =
    (removeOldCandles_loop (getTimestampForDaysAgo now (days p)) (deque p)).1.
Proof.
  unfold removeOldCandles.
  destruct (removeOldCandles_loop _ _) as [r d]. by simpl.
Qed.

Lemma ascending_app_inv (l1 l2 : list Candle) :
  ascending (l1 ++ l2) → ascending l2.
Proof. apply StronglySorted_app_1_r. Qed.

Lemma ascending_head_le (c : Candle) (l : list Candle) x :
  ascending (c :: l) → x ∈ c :: l → timestamp c ≤ timestamp x.
Proof.
  intros Hs Hx. apply StronglySorted_cons in Hs as [Hall _].
  apply elem_of_cons in Hx as [->|Hx]; [lia|].
  rewrite Forall_forall in Hall. by apply Hall.
Qed.

Lemma removeOldCandles_loop_keeps_ascending sinceDate d :
  ascending d → ascending (removeOldCandles_loop sinceDate d).2.
Proof.
  intros Hs. destruct (removeOldCandles_loop_split sinceDate d) as (ev & Heq & _).
  rewrite Heq in Hs. by eapply ascending_app_inv.
Qed.

(** When some candle is inside the window the loop returns normally. *)
Lemma removeOldCandles_loop_returns sinceDate d c :
  c ∈ d → sinceDate ≤ timestamp c →
  (removeOldCandles_loop sinceDate d).1 = Return ().
Proof.
  induction d as [|x d IH]; intros Hin Hc; [by apply elem_of_nil in Hin|].
  simpl. case_bool_decide as Hx; [|done].
  apply elem_of_cons in Hin as [->|Hin]; [lia|]. by apply IH.
Qed.

(** C3. The source has no guard for the empty deque: on an empty buffer
    [front()] is [undefined], the read of [undefined[0]] throws a
    TypeError, and #removeOldCandles does not return normally.  (The buffer
    and [isReady] are left as they were.) *)
Theorem removeOldCandles_empty_faults now p :
  index0 (Deque.front Deque.empty) = Throw TypeError ∧
  removeOldCandles now (set_deque Deque.empty p)
  = (Throw TypeError, set_deque Deque.empty p) ∧
  (removeOldCandles now (set_deque Deque.empty p)).1 ≠ Return ().
Proof.
  split; [reflexivity|]. split; [reflexivity|]. simpl. discriminate.
Qed.

(** C7. On a buffer in ascending timestamp order the window maintainer,
    run with the clock at [now], removes exactly a front segment of candles
    older than [now - days * dayMillis]: every candle it leaves is inside
    the window, every candle it removes is older than the window, and a
    back candle inside the window is still the back candle afterwards (the
    call then returns normally). *)
Theorem removeOldCandles_window now p :
  ascending (deque p) →
  let p' := (removeOldCandles now p).2 in
  let cutoff := now - days p * dayMillis in
  (∀ c, c ∈ deque p' → cutoff ≤ timestamp c) ∧
  (∃ evicted, deque p = evicted ++ deque p' ∧
              ∀ c, c ∈ evicted → timestamp c < cutoff) ∧
  (∀ c, c ∈ deque p → cutoff ≤ timestamp c → c ∈ deque p') ∧
  (∀ b, Deque.back (deque p) = Some b → cutoff ≤ timestamp b →
        Deque.back (deque p') = Some b ∧ (removeOldCandles now p).1 = Return ()).
Proof.
  intros Hasc p' cutoff.
  destruct (removeOldCandles_fields now p) as (_ & _ & _ & _ & _ & _ & Hd & Hr).
  fold p' in Hd.
  assert (Hcut : getTimestampForDaysAgo now (days p) = cutoff).
  { unfold getTimestampForDaysAgo, cutoff, dayMillis. lia. }
  rewrite Hcut in Hd, Hr.
  destruct (removeOldCandles_loop_split cutoff (deque p)) as (ev & Heq & Hev & Hres).
  rewrite <- Hd in Heq, Hres.
  rewrite Forall_forall in Hev.
  assert (Hkept : ∀ c, c ∈ deque p' → cutoff ≤ timestamp c).
  { intros c Hc.
    destruct ((removeOldCandles_loop cutoff (deque p)).1).
    - destruct Hres as (x & rest & Hx & Hle).
      assert (Hs : ascending (deque p')).
      { rewrite Heq in Hasc. by eapply ascending_app_inv. }
      rewrite Hx in Hs, Hc.
      pose proof (ascending_head_le _ _ _ Hs Hc). lia.
    - destruct Hres as [_ Hnil]. rewrite Hnil in Hc. by apply elem_of_nil in Hc. }
  assert (Hstay : ∀ c, c ∈ deque p → cutoff ≤ timestamp c → c ∈ deque p').
  { intros c Hc Hle. rewrite Heq in Hc. apply elem_of_app in Hc as [Hc|Hc]; [|done].
    apply Hev in Hc. lia. }
  split; [done|]. split; [by exists ev|]. split; [done|].
  intros b Hb Hle. unfold Deque.back in *.
  assert (Hin : b ∈ deque p) by by apply last_Some_elem_of.
  split.
  - pose proof (Hstay b Hin Hle) as Hb'.
    rewrite Heq in Hb. rewrite last_app in Hb.
    destruct (last (deque p')) as [b'|] eqn:Hl; [done|].
    apply last_None in Hl. rewrite Hl in Hb'. by apply elem_of_nil in Hb'.
  - rewrite Hr. by eapply removeOldCandles_loop_returns.
Qed.

Lemma removeOldCandles_window_witness :
  ascending (deque stale_and_fresh) ∧
  ∀ c, c ∈ deque (removeOldCandles 250 stale_and_fresh).2 →
       250 - days stale_and_fresh * dayMillis ≤ timestamp c.
Proof.
  assert (Hasc : ascending (deque stale_and_fresh)).
  { unfold ascending. simpl. repeat constructor; simpl; lia. }
  split; [exact Hasc|].
  exact (proj1 (removeOldCandles_window 250 stale_and_fresh Hasc)).
Defined.

(** ** Read accessors on an empty buffer *)

(** C6, as stated, fails: on the provider that has never received a candle
    [getFirst()] and [getLast()] complete normally with [undefined]; no
    error is raised. *)
Lemma getFirst_getLast_fresh_undefined :
  deque fresh_provider = Deque.empty ∧
  getFirst fresh_provider = Return None ∧
  getLast fresh_provider = Return None ∧
  ¬ (∃ e, getFirst fresh_provider = Throw e ∨ getLast fresh_provider = Throw e).
Proof.
  repeat split. intros [e [H|H]]; discriminate H.
Qed.

(** C6, amended. On an empty buffer [getFirst()] and [getLast()] return the
    deque's own answer, [undefined], without raising an error. *)
Theorem getFirst_getLast_empty p :
  deque p = Deque.empty →
  getFirst p = Return None ∧ getLast p = Return None.
Proof.
  intros Hd. unfold getFirst, getLast. by rewrite Hd.
Qed.

Lemma getFirst_getLast_empty_witness :
  getFirst fresh_provider = Return None ∧ getLast fresh_provider = Return None.
Proof.
  apply (getFirst_getLast_empty fresh_provider). reflexivity.
Defined.

(** ** A live tick that brings nothing *)

Lemma removeOldCandles_loop_nil sinceDate :
  removeOldCandles_loop sinceDate [] = (Throw TypeError, []).
Proof. reflexivity. Qed.

(** C8. A tick whose fetch is rejected leaves the buffer exactly as it was
    (only [isReady] is cleared).  A tick whose fetch resolves to an empty
    sequence appends nothing: the buffer afterwards is the buffer before
    with the window maintainer's pass applied, nothing else.  Both hold for
    the continuation after the [await] and for the tick as a whole. *)
Theorem live_tick_without_candles now p :
  startWatchingForNewOHLCV_resume now Failed p = set_isReady false p ∧
  deque (startWatchingForNewOHLCV_resume now Failed p) = deque p ∧
  deque (startWatchingForNewOHLCV now Failed p) = deque p ∧
  deque (startWatchingForNewOHLCV_resume now (Chunk []) p)
    = deque (removeOldCandles now p).2 ∧
  deque (startWatchingForNewOHLCV now (Chunk []) p)
    = deque (removeOldCandles now p).2.
Proof.
  assert (Hres : deque (startWatchingForNewOHLCV_resume now (Chunk []) p)
                 = deque (removeOldCandles now p).2).
  { unfold startWatchingForNewOHLCV_resume. simpl.
    replace (set_deque (deque p) p) with p by by destruct p.
    destruct (removeOldCandles now p) as [[[]|e] p2]; by simpl. }
  split; [done|]. split; [done|]. split.
  - unfold startWatchingForNewOHLCV.
    by destruct (startWatchingForNewOHLCV_request p).
  - split; [done|].
    unfold startWatchingForNewOHLCV.
    destruct (startWatchingForNewOHLCV_request p) as [since|e] eqn:Hreq; [done|].
    unfold startWatchingForNewOHLCV_request, Deque.back in Hreq.
    destruct (last (deque p)) as [b|] eqn:Hl; [discriminate Hreq|].
    apply last_None in Hl.
    destruct (removeOldCandles_fields now p) as (_ & _ & _ & _ & _ & _ & Hd & _).
    rewrite Hd, Hl. by simpl.
Qed.

(** ** The interval registry and the constructor *)

Lemma keys_include_1m timeframe :
  keys_include timeframe = true ↔ timeframe = "1m"%string.
Proof.
  unfold keys_include, TIMEFRAMES_IN_MILLISECONDS.
  rewrite map_to_list_singleton. simpl.
  rewrite bool_decide_eq_true. apply list_elem_of_singleton.
Qed.

(** C10. The registry has the single entry "1m" -> 60000.  The constructor
    called with any other timeframe string throws Error("Incorrect
    timeframe") and produces no provider: no field is assigned, no fetch is
    issued, no timer is started.  Called with "1m" it returns a provider in
    its loading state whose interval duration is 60000, with the first
    backfill fetch outstanding. *)
Theorem constructor_timeframe :
  map_to_list TIMEFRAMES_IN_MILLISECONDS = [("1m"%string, 60000)] ∧
  (∀ now symbol timeframe days updateInterval limit,
     timeframe ≠ "1m"%string →
     constructor now symbol (Some timeframe) days updateInterval limit
     = Throw (Error "Incorrect timeframe")) ∧
  (∀ now symbol days updateInterval limit,
     ∃ s, constructor now symbol (Some "1m"%string) days updateInterval limit
          = Return s ∧
          timeframe (provider s) = "1m"%string ∧
          TIMEFRAMES_IN_MILLISECONDS !! timeframe (provider s) = Some 60000 ∧
          deque (provider s) = Deque.empty ∧
          isReady (provider s) = false ∧
          pc s = PcFetching (mkLoopVars false
                   (Num (getTimestampForDaysAgo now (default 7 days)))) ∧
          inflight s = []).
Proof.
  split; [apply map_to_list_singleton|]. split.
  - intros now sym tf d ui lim Hne. unfold constructor. simpl.
    destruct (keys_include tf) eqn:Hk; [|done].
    apply keys_include_1m in Hk. contradiction.
  - intros now sym d ui lim. eexists. by repeat split.
Qed.

Lemma constructor_timeframe_witness :
  constructor 0 "BTC/USDT" (Some "5m"%string) None None None
  = Throw (Error "Incorrect timeframe").
Proof.
  apply (proj1 (proj2 constructor_timeframe)). discriminate.
Defined.

(** ** The backfill loop *)

Lemma one_day_start_constructed :
  constructor dayMillis "BTC/USDT" (Some "1m"%string) (Some 1) None None
  = Return one_day_start.
Proof. reflexivity. Qed.

Lemma plus_timeframe_1m ts : plus_timeframe ts "1m" = Num (ts + 60000).
Proof. reflexivity. Qed.

(** After a non-empty chunk has been appended nothing in the rest of the
    [try] block can throw. *)
Lemma after_append_nonempty p d c chunk :
  ∃ f b,
    Deque.front (d ++ c :: chunk) = Some f ∧
    Deque.back (d ++ c :: chunk) = Some b ∧
    last (c :: chunk) = Some b ∧
    after_append (set_deque (d ++ c :: chunk) p) (c :: chunk)
    = Return (mkLoopVars
        (bool_decide (timestamp f = timestamp b + days p * 24 * 60 * 60 * 1000)
         || bool_decide (days p * 24 * 60 ≤ Deque.size (d ++ c :: chunk)))
        (plus_timeframe (timestamp b) (timeframe p))).
Proof.
  destruct (last (c :: chunk)) as [b|] eqn:Hl;
    [|apply last_None in Hl; discriminate Hl].
  assert (Hb : Deque.back (d ++ c :: chunk) = Some b).
  { unfold Deque.back. by rewrite last_app, Hl. }
  destruct (Deque.front (d ++ c :: chunk)) as [f|] eqn:Hf;
    [|unfold Deque.front in Hf; apply head_None in Hf; by destruct d].
  exists f, b. repeat split; [done|].
  unfold after_append. rewrite Hl. simpl deque. rewrite Hf, Hb. reflexivity.
Qed.

(** What the source tests: the loop is left after a resolved fetch exactly
    when the chunk is empty, or the front timestamp equals the back
    timestamp PLUS the window length, or the size test holds. *)
Lemma loop_stops_chunk p v chunk :
  loop_stops p v (Chunk chunk) = true ↔
  chunk = []
  ∨ (∃ f b, Deque.front (deque p ++ chunk) = Some f ∧
            Deque.back (deque p ++ chunk) = Some b ∧
            timestamp f = timestamp b + days p * dayMillis)
  ∨ days p * minutesPerDay ≤ Deque.size (deque p ++ chunk).
Proof.
  unfold loop_stops, loadInitialData_body. destruct chunk as [|c chunk].
  - simpl. split; [by left|done].
  - rewrite bool_decide_eq_false_2 by (simpl; lia).
    rewrite pushBack_each_app.
    destruct (after_append_nonempty p (deque p) c chunk) as (f & b & Hf & Hb & _ & ->).
    simpl. rewrite orb_true_iff, !bool_decide_eq_true.
    unfold dayMillis, minutesPerDay. split.
    + intros [H|H]; [right; left; exists f, b; repeat split; [done..|lia]|right; right; lia].
    + intros [H|[(f' & b' & Hf' & Hb' & H)|H]]; [done| |right; lia].
      left. rewrite Hf in Hf'. rewrite Hb in Hb'. simplify_eq. lia.
Qed.

(** A rejected fetch leaves the loop with the buffer as it was. *)
Lemma loadInitialData_body_failed p v : loadInitialData_body p v Failed = (p, v, Break).
Proof. reflexivity. Qed.

(** When the loop is not left, the pass reaches the sleep, and waking up
    issues the next fetch. *)
Lemma loop_continues p v r infl now now' :
  loop_stops p v r = false →
  ∃ p1 v1,
    loadInitialData_body p v r = (p1, v1, ToSleep) ∧ allCandlesLoaded v1 = false ∧
    run (mkState p (PcFetching v) infl) [EvFetchDone r now; EvWake now']
    = Some (mkState p1 (PcFetching v1) infl).
Proof.
  unfold loop_stops. intros Hs.
  destruct (loadInitialData_body p v r) as [[p1 v1] [|]] eqn:Hb; [discriminate Hs|].
  exists p1, v1. repeat split; [done|].
  simpl. unfold step, start_poll, startMonitoring_tick. simpl. rewrite Hb. simpl. unfold step, start_poll, startMonitoring_tick. simpl.
  by rewrite Hs.
Qed.

(** C1. The width test of the source has the sign of the window length
    reversed.  With a one-day window and a first chunk of two candles one
    day apart, condition (b) of the specification holds after the chunk
    (front minus back is minus one day), yet the loop is not left: the pass
    goes to sleep with [allCandlesLoaded] false and then issues another
    fetch. *)
Theorem backfill_width_test_sign :
  termination_conditions (days (provider one_day_start)) day_apart
    (deque (provider one_day_start) ++ day_apart) ∧
  loop_stops (provider one_day_start) (mkLoopVars false (Num 0)) (Chunk day_apart)
  = false ∧
  run one_day_start [EvFetchDone (Chunk day_apart) dayMillis; EvWake dayMillis]
  = Some (mkState (set_deque day_apart (provider one_day_start))
                  (PcFetching (mkLoopVars false (Num (dayMillis + 60000)))) []).
Proof.
  split; [|split; reflexivity].
  right. left. exists (candle_at 0), (candle_at dayMillis). by repeat split.
Qed.

(** ** Leaving the loop *)

(** The two statements after the loop: one maintainer pass, and [isReady]
    is set exactly when that pass returns. *)
Lemma loadInitialData_exit_unfold now p :
  loadInitialData_exit now p =
  match (removeOldCandles now p).1 with
  | Return _ => (set_isReady true (removeOldCandles now p).2, PcPolling)
  | Throw _ => ((removeOldCandles now p).2, PcRejected)
  end.
Proof.
  unfold loadInitialData_exit. by destruct (removeOldCandles now p) as [[[]|e] p1].
Qed.

Lemma loadInitialData_exit_cases now p :
  let '(p', pc') := loadInitialData_exit now p in
  (pc' = PcPolling ∧ isReady p' = true ∧ deque p' ≠ [] ∧
   (removeOldCandles now p).1 = Return ())
  ∨ (pc' = PcRejected ∧ isReady p' = isReady p ∧ deque p' = [] ∧
     (removeOldCandles now p).1 = Throw TypeError).
Proof.
  rewrite loadInitialData_exit_unfold.
  destruct (removeOldCandles_fields now p) as (_ & _ & _ & _ & _ & Hr & Hd & Hres).
  destruct (removeOldCandles_loop_split
              (getTimestampForDaysAgo now (days p)) (deque p)) as (_ & _ & _ & Hc).
  rewrite <- Hres, <- Hd in Hc.
  destruct (removeOldCandles now p).1 as [[]|e].
  - left. destruct Hc as (c & rest & Hc & _).
    split; [done|]. split; [done|]. split; [|done].
    simpl. by rewrite Hc.
  - right. destruct Hc as [-> Hc]. by repeat split.
Qed.

(** Once #loadInitialData has thrown nothing is scheduled any more. *)
Lemma rejected_is_final s e : pc s = PcRejected → step s e = None.
Proof. intros Hpc. unfold step, start_poll, startMonitoring_tick. rewrite Hpc. by destruct e. Qed.

Lemma rejected_run s es s' :
  pc s = PcRejected → run s es = Some s' → s' = s.
Proof.
  intros Hpc. destruct es as [|e es]; simpl; [congruence|].
  by rewrite rejected_is_final.
Qed.

(** C4. When the very first backfill fetch is rejected the loop is left
    with an empty buffer, the window maintainer faults on it, and
    [isReady = true] is never reached: the provider stays unavailable in
    every continuation.  The failure did prevent readiness. *)
Theorem backfill_failure_on_first_fetch now0 now1 symbol days updateInterval limit :
  ∃ s0 s1,
    constructor now0 symbol None days updateInterval limit = Return s0 ∧
    step s0 (EvFetchDone Failed now1) = Some s1 ∧
    (removeOldCandles now1 (provider s0)).1 = Throw TypeError ∧
    pc s1 = PcRejected ∧
    ∀ es, match run s1 es with
          | Some s2 => isDataAvailable (provider s2) = false
          | None => True
          end.
Proof.
  eexists. eexists. split; [reflexivity|]. split; [reflexivity|].
  split; [reflexivity|]. split; [reflexivity|].
  intros es. destruct (run _ es) as [s2|] eqn:Hrun; [|done].
  apply rejected_run in Hrun; [|done]. by rewrite Hrun.
Qed.

(** ** The watcher after a failed tick *)

(** With [isReady] false and no fetch outstanding the watcher's callback
    skips every tick: the state never changes again. *)
Lemma stalled_step s e s' :
  pc s = PcMonitoring → isReady (provider s) = false → inflight s = [] →
  step s e = Some s' → s' = s.
Proof.
  intros Hpc Hr Hin. unfold step, start_poll, startMonitoring_tick. rewrite Hpc, Hr, Hin.
  destruct e; simpl; congruence.
Qed.

Lemma stalled_run s es s' :
  pc s = PcMonitoring → isReady (provider s) = false → inflight s = [] →
  run s es = Some s' → s' = s.
Proof.
  intros Hpc Hr Hin. induction es as [|e es IH]; simpl; [congruence|].
  destruct (step s e) as [s1|] eqn:Hs; [|done].
  apply stalled_step in Hs; [|done..]. by subst s1.
Qed.

(** C5. After the backfill of [backfill_events], one tick whose fetch is
    rejected clears [isReady].  From that state a firing watcher issues no
    fetch (the state is unchanged), and whatever the event loop delivers
    afterwards, [isReady] is still false: readiness is never restored. *)
Theorem failed_tick_never_recovers :
  ∃ s, run one_day_start failed_tick_events = Some s ∧
       isReady (provider s) = false ∧
       step s EvTick = Some s ∧
       ∀ es, match run s es with
             | Some s' => isDataAvailable (provider s') = false
             | None => True
             end.
Proof.
  eexists. split; [reflexivity|]. split; [reflexivity|]. split; [reflexivity|].
  intros es. destruct (run _ es) as [s'|] eqn:Hrun; [|done].
  apply stalled_run in Hrun; [|done..]. by rewrite Hrun.
Qed.

(** ** Readiness over the life of the provider *)

Lemma reachable_invariant (I : State → Prop) :
  (∀ s0, from_constructor s0 → I s0) →
  (∀ s e s', I s → step s e = Some s' → I s') →
  ∀ s, reachable s → I s.
Proof.
  intros Hinit Hstep s (s0 & es & Hc & Hrun).
  apply Hinit in Hc. clear Hinit.
  revert s0 Hc Hrun. induction es as [|e es IH]; intros s0 Hc Hrun; simpl in Hrun.
  - by simplify_eq.
  - destruct (step s0 e) as [s1|] eqn:Hs; [|done].
    eapply IH; [|exact Hrun]. by eapply Hstep.
Qed.

Lemma constructor_state s0 :
  from_constructor s0 →
  ∃ now symbol days updateInterval limit,
    s0 = mkState (mkProvider symbol "1m" days updateInterval limit Deque.empty false)
                 (PcFetching (mkLoopVars false
                                (Num (getTimestampForDaysAgo now days)))) [].
Proof.
  intros (now & sym & tf & d & ui & lim & H). unfold constructor in H.
  destruct (keys_include (default "1m"%string tf)) eqn:Hk; simpl in H; [|done].
  apply keys_include_1m in Hk. rewrite Hk in H. simplify_eq. by eexists _, _, _, _, _.
Qed.

(** A pass of the loop body never writes [isReady] or the configuration. *)
Lemma loadInitialData_body_fields p v r :
  let p1 := (loadInitialData_body p v r).1.1 in
  isReady p1 = isReady p ∧ timeframe p1 = timeframe p ∧ days p1 = days p.
Proof.
  unfold loadInitialData_body. destruct r as [chunk|]; [|done].
  case_bool_decide; [done|].
  by destruct (after_append _ chunk).
Qed.

(** How the continuation of a tick ends. *)
Lemma resume_cases now r p :
  let p' := startWatchingForNewOHLCV_resume now r p in
  (isReady p' = true ∧ deque p' ≠ [])
  ∨ (isReady p' = false ∧
     match r with
     | Failed => True
     | Chunk candles =>
         (removeOldCandles now
            (set_deque (Deque.pushBack_each candles (deque p)) p)).1 ≠ Return ()
     end).
Proof.
  unfold startWatchingForNewOHLCV_resume. destruct r as [candles|]; [|by right].
  set (p1 := set_deque _ p).
  pose proof (loadInitialData_exit_cases now p1) as Hc. unfold loadInitialData_exit in Hc.
  destruct (removeOldCandles now p1) as [[[]|e] p2]; simpl in *.
  - left. destruct Hc as [(_ & _ & Hd & _)|(Hpc & _)]; [done|discriminate Hpc].
  - by right.
Qed.

Lemma ready_inv_step s e s' : ready_inv s → step s e = Some s' → ready_inv s'.
Proof.
  intros Hinv. pose proof Hinv as [Hb Hne]. unfold step, start_poll, startMonitoring_tick.
  destruct e as [r now|now| | |i r now], (pc s) as [v|v| | |] eqn:Hpc;
    try discriminate; intros Hs;
    try (assert (Hf : isReady (provider s) = false)
           by (apply Hb; unfold backfilling; by rewrite Hpc)).
  - pose proof (loadInitialData_body_fields (provider s) v r) as (Hr & _).
    destruct (loadInitialData_body (provider s) v r) as [[p1 v1] [|]]; simpl in Hr.
    + pose proof (loadInitialData_exit_cases now p1) as Hc.
      destruct (loadInitialData_exit now p1) as [p2 pc2]. simplify_eq.
      unfold ready_inv, backfilling. simpl.
      destruct Hc as [(-> & Hr2 & Hd & _)|(-> & Hr2 & _)]; [done|].
      rewrite Hr2, Hr, Hf. done.
    + simplify_eq. unfold ready_inv, backfilling. simpl. rewrite Hr, Hf. done.
  - destruct (allCandlesLoaded v).
    + pose proof (loadInitialData_exit_cases now (provider s)) as Hc.
      destruct (loadInitialData_exit now (provider s)) as [p2 pc2]. simplify_eq.
      unfold ready_inv, backfilling. simpl.
      destruct Hc as [(-> & Hr2 & Hd & _)|(-> & Hr2 & _)]; [done|].
      rewrite Hr2, Hf. done.
    + simplify_eq. unfold ready_inv, backfilling. simpl. rewrite Hf. done.
  - destruct (isReady (provider s)) eqn:Hr; simplify_eq; [|exact Hinv].
    unfold ready_inv, backfilling. simpl. by rewrite Hr.
  - destruct (isReady (provider s)) eqn:Hr; [|simplify_eq; exact Hinv].
    destruct (startWatchingForNewOHLCV_request (provider s));
      simplify_eq; unfold ready_inv, backfilling; simpl; [by rewrite Hr|done].
  - destruct (inflight s !! i); [|done]. simplify_eq.
    unfold ready_inv, backfilling. simpl.
    destruct (resume_cases now r (provider s)) as [[-> Hd]|[-> _]]; done.
Qed.

Lemma ready_inv_reachable s : reachable s → ready_inv s.
Proof.
  apply reachable_invariant; [|apply ready_inv_step].
  intros s0 Hc. apply constructor_state in Hc as (now & sym & d & ui & lim & ->).
  by split.
Qed.

Lemma one_day_start_from_constructor : from_constructor one_day_start.
Proof.
  exists dayMillis, "BTC/USDT"%string, (Some "1m"%string), (Some 1), None, None.
  reflexivity.
Qed.

(** C2, as stated, fails: in the run [failed_tick_events] the backfill has
    ended and [isDataAvailable()] is true when the watcher's fetch is
    rejected; that step sets it back to false. *)
Lemma readiness_cleared_by_failed_tick :
  from_constructor one_day_start ∧
  ∃ s1 s2,
    run one_day_start (backfill_events ++ [EvTick]) = Some s1 ∧
    backfilling s1 = false ∧
    isDataAvailable (provider s1) = true ∧
    step s1 (EvTickDone 0 Failed dayMillis) = Some s2 ∧
    isDataAvailable (provider s2) = false.
Proof.
  split; [apply one_day_start_from_constructor|].
  eexists. eexists. repeat split; reflexivity.
Qed.

(** The exit of the backfill makes the provider available exactly when
    the maintainer's pass returns. *)
Lemma loadInitialData_exit_available now p :
  isReady p = false →
  (isReady (loadInitialData_exit now p).1 = true ↔
   (removeOldCandles now p).1 = Return ()).
Proof.
  intros Hf. rewrite loadInitialData_exit_unfold.
  destruct (removeOldCandles_fields now p) as (_ & _ & _ & _ & _ & Hr & _).
  simpl in Hr.
  destruct (removeOldCandles now p).1 as [[]|err]; simpl; [done|].
  rewrite Hr, Hf. split; discriminate.
Qed.

(** The settling of a failed tick always clears [isReady]. *)
Lemma tick_failed_clears s e s' :
  tick_failed s e → step s e = Some s' → isReady (provider s') = false.
Proof.
  unfold step, tick_failed.
  destruct e as [r now|now| | |i r now]; try done.
  destruct (pc s); try discriminate.
  destruct (inflight s !! i); [|done]. intros Hf [= <-]. simpl.
  destruct (resume_cases now r (provider s)) as [[Ht _]|[Hfalse _]]; [|done].
  destruct r as [candles|]; [|done].
  unfold startWatchingForNewOHLCV_resume in *.
  destruct (removeOldCandles now _) as [[[]|err] p2]; simpl in *; done.
Qed.

(** C2, amended. In every reachable state: while the backfill loop has
    not been left [isDataAvailable()] is false; the step that leaves the
    loop reads the clock and makes [isDataAvailable()] true exactly when
    the window maintainer's pass at that clock returns; and once it is
    true, a step makes it false exactly when it is the settling of a live
    tick that failed (every other step leaves it true). *)
Theorem readiness_lifecycle s :
  reachable s →
  (backfilling s = true → isDataAvailable (provider s) = false) ∧
  (∀ e s', step s e = Some s' → backfilling s = true → backfilling s' = false →
     ∃ now, (e = EvWake now ∨ ∃ r, e = EvFetchDone r now) ∧
            (isDataAvailable (provider s') = true ↔
             (removeOldCandles now (provider s)).1 = Return ())) ∧
  (∀ e s', step s e = Some s' → isDataAvailable (provider s) = true →
     (isDataAvailable (provider s') = false ↔ tick_failed s e)).
Proof.
  intros Hreach. pose proof (ready_inv_reachable s Hreach) as [Hb Hne].
  unfold isDataAvailable. split; [done|]. split.
  - intros e s' Hs Hbs Hbs'. specialize (Hb Hbs).
    pose proof (λ now, loadInitialData_exit_available now (provider s) Hb) as Hexit.
    unfold step, start_poll, startMonitoring_tick, backfilling in *.
    destruct e as [r now|now| | |i r now], (pc s) as [v|v| | |] eqn:Hpc;
      try discriminate; exists now.
    + split; [right; by exists r|]. specialize (Hexit now).
      destruct r as [[|c chunk]|].
      * simpl in Hs. destruct (loadInitialData_exit now (provider s)) as [p2 pc2].
        by injection Hs as <-.
      * unfold loadInitialData_body in Hs.
        rewrite bool_decide_eq_false_2 in Hs by (simpl; lia).
        rewrite pushBack_each_app in Hs.
        destruct (after_append_nonempty (provider s) (deque (provider s)) c chunk)
          as (f & b & _ & _ & _ & Haa).
        rewrite Haa in Hs. injection Hs as <-. discriminate Hbs'.
      * simpl in Hs. destruct (loadInitialData_exit now (provider s)) as [p2 pc2].
        by injection Hs as <-.
    + split; [by left|]. specialize (Hexit now). destruct (allCandlesLoaded v).
      * destruct (loadInitialData_exit now (provider s)) as [p2 pc2].
        by injection Hs as <-.
      * injection Hs as <-. discriminate Hbs'.
  - intros e s' Hs Hr. split; [|intros Hf; by eapply tick_failed_clears].
    intros Hr'. unfold step, start_poll, startMonitoring_tick, backfilling in *.
    destruct e as [r now|now| | |i r now], (pc s) as [v|v| | |] eqn:Hpc;
      try discriminate; try (rewrite Hb in Hr by done; discriminate Hr).
    + rewrite Hr in Hs. simplify_eq. simpl in Hr'. congruence.
    + rewrite Hr in Hs.
      destruct (startWatchingForNewOHLCV_request (provider s)) as [since|err] eqn:Hreq.
      * simplify_eq. simpl in Hr'. congruence.
      * unfold startWatchingForNewOHLCV_request, Deque.back in Hreq.
        destruct (last (deque (provider s))) as [b|] eqn:Hl; [discriminate Hreq|].
        apply last_None in Hl. by apply Hne in Hr.
    + destruct (inflight s !! i); [|done]. simplify_eq. simpl in Hr'.
      destruct (resume_cases now r (provider s)) as [[Ht _]|[_ Hf]]; [congruence|].
      unfold tick_failed. by destruct r.
Qed.

Lemma readiness_lifecycle_witness :
  isDataAvailable
    (provider (mkState (mkProvider "BTC/USDT" "1m" 1 10000 1000 [candle_at 0] false)
                       PcMonitoring [])) = false.
Proof.
  assert (Hrun : run one_day_start (backfill_events ++ [EvTick])
                 = Some (mkState (mkProvider "BTC/USDT" "1m" 1 10000 1000
                                             [candle_at 0] true)
                                 PcMonitoring [Num 60000]))
    by (vm_compute; reflexivity).
  assert (Hr : reachable (mkState (mkProvider "BTC/USDT" "1m" 1 10000 1000
                                              [candle_at 0] true)
                                  PcMonitoring [Num 60000])).
  { exists one_day_start, (backfill_events ++ [EvTick]).
    split; [apply one_day_start_from_constructor|exact Hrun]. }
  refine (proj2 (proj2 (proj2 (readiness_lifecycle _ Hr))
                   (EvTickDone 0 Failed dayMillis) _ eq_refl eq_refl) I).
Defined.

(** ** Timestamp order of the buffer *)

Lemma ascending_le_last (d : list Candle) b :
  ascending d → last d = Some b → Forall (λ c, timestamp c ≤ timestamp b) d.
Proof.
  intros Hs Hl. apply last_Some in Hl as [d' ->].
  apply StronglySorted_app in Hs as (Hcross & _ & _).
  apply Forall_app. split.
  - apply Forall_forall. intros c Hc. apply Hcross; [done|]. by apply list_elem_of_singleton.
  - by repeat constructor.
Qed.

Lemma ascending_front_back (d : list Candle) f b :
  ascending d → Deque.front d = Some f → Deque.back d = Some b →
  timestamp f ≤ timestamp b.
Proof.
  intros Hs Hf Hb. unfold Deque.front, Deque.back in *.
  pose proof (ascending_le_last d b Hs Hb) as Hall.
  rewrite Forall_forall in Hall. apply Hall.
  destruct d; simplify_eq/=. by left.
Qed.

(** Appending an ascending chunk that starts at or after a time every
    buffered candle is older than keeps the buffer ascending. *)
Lemma append_ascending (d chunk : list Candle) since :
  ascending d → before since d →
  ascending chunk → Forall (at_or_after since) chunk →
  ascending (d ++ chunk).
Proof.
  intros Hd (t & -> & Hlt) Hc Hge. apply StronglySorted_app. split; [|done].
  intros x1 x2 H1 H2. rewrite Forall_forall in Hlt, Hge.
  specialize (Hlt x1 H1). specialize (Hge x2 H2 t eq_refl). simpl in *. lia.
Qed.

(** After a non-empty chunk the next request time is past the whole
    buffer. *)
Lemma before_after_append (d chunk : list Candle) since b :
  before since d → ascending chunk → Forall (at_or_after since) chunk →
  last chunk = Some b →
  before (Num (timestamp b + 60000)) (d ++ chunk).
Proof.
  intros (t & -> & Hlt) Hc Hge Hl. exists (timestamp b + 60000). split; [done|].
  pose proof (ascending_le_last chunk b Hc Hl) as Hle.
  rewrite Forall_forall in Hlt, Hge, Hle.
  assert (Hb : t ≤ timestamp b).
  { apply (Hge b); [by apply last_Some_elem_of|done]. }
  apply Forall_app. split; apply Forall_forall; intros c Hin.
  - specialize (Hlt c Hin). simpl in Hlt. lia.
  - specialize (Hle c Hin). simpl in Hle. lia.
Qed.

Lemma ascending_before_back (d : list Candle) b :
  ascending d → last d = Some b → before (Num (timestamp b + 60000)) d.
Proof.
  intros Hs Hl. exists (timestamp b + 60000). split; [done|].
  eapply Forall_impl; [by apply ascending_le_last|]. simpl. intros c Hc. lia.
Qed.

Lemma loadInitialData_exit_fields now p :
  timeframe (loadInitialData_exit now p).1 = timeframe p ∧
  deque (loadInitialData_exit now p).1
  = (removeOldCandles_loop (getTimestampForDaysAgo now (days p)) (deque p)).2 ∧
  ((loadInitialData_exit now p).2 = PcPolling ∨ (loadInitialData_exit now p).2 = PcRejected).
Proof.
  rewrite loadInitialData_exit_unfold.
  destruct (removeOldCandles_fields now p) as (_ & Htf & _ & _ & _ & _ & Hd & _).
  destruct (removeOldCandles now p).1; simpl; eauto.
Qed.

Lemma resume_fields now chunk p :
  timeframe (startWatchingForNewOHLCV_resume now (Chunk chunk) p) = timeframe p ∧
  deque (startWatchingForNewOHLCV_resume now (Chunk chunk) p)
  = (removeOldCandles_loop (getTimestampForDaysAgo now (days p))
       (deque p ++ chunk)).2.
Proof.
  unfold startWatchingForNewOHLCV_resume. rewrite pushBack_each_app.
  set (p1 := set_deque _ p).
  destruct (removeOldCandles_fields now p1) as (_ & Htf & _ & _ & _ & _ & Hd & _).
  destruct (removeOldCandles now p1) as [[[]|e] p2]; simpl in *; by rewrite Htf, Hd.
Qed.

Lemma order_inv_loadInitialData_exit now p :
  timeframe p = "1m"%string → ascending (deque p) →
  order_inv (mkState (loadInitialData_exit now p).1 (loadInitialData_exit now p).2 []).
Proof.
  intros Htf Hasc.
  destruct (loadInitialData_exit_fields now p) as (Htf' & Hd & Hpc).
  unfold order_inv, backfilling. simpl. rewrite Htf', Hd.
  split; [done|]. split; [by apply removeOldCandles_loop_keeps_ascending|].
  split; [|by split; [|left]].
  intros v [Hv|Hv]; destruct Hpc as [Hpc|Hpc]; congruence.
Qed.

Lemma order_inv_step s e s' :
  order_inv s → fetch_contract s e → no_overlap s e →
  step s e = Some s' → order_inv s'.
Proof.
  intros Hinv. pose proof Hinv as (Htf & Hasc & Hnext & Hbf & Hin).
  intros Hfc Hno. unfold step, start_poll, startMonitoring_tick.
  destruct e as [r now|now| | |i r now], (pc s) as [v|v| | |] eqn:Hpc;
    try discriminate; intros Hs.
  - (* the backfill fetch settles *)
    assert (Hnil : inflight s = []) by (apply Hbf; unfold backfilling; by rewrite Hpc).
    pose proof (Hnext v (or_introl eq_refl)) as Hbefore.
    simpl in Hfc. rewrite Hpc in Hfc. rewrite Hnil in Hs.
    destruct r as [[|c chunk]|].
    + simpl in Hs. destruct (loadInitialData_exit now (provider s)) as [p2 pc2] eqn:Hal.
      simplify_eq. pose proof (order_inv_loadInitialData_exit now (provider s) Htf Hasc) as H.
      by rewrite Hal in H.
    + unfold loadInitialData_body in Hs.
      rewrite bool_decide_eq_false_2 in Hs by (simpl; lia).
      rewrite pushBack_each_app in Hs.
      destruct (after_append_nonempty (provider s) (deque (provider s)) c chunk)
        as (f & b & Hf & Hb & Hl & Haa).
      rewrite Haa in Hs. simplify_eq. destruct Hfc as [Hc Hge].
      unfold order_inv, backfilling. simpl. rewrite Htf.
      split; [done|]. split; [by eapply append_ascending|].
      split; [|by split; [|left]].
      intros v' [Hv|Hv]; simplify_eq. simpl. rewrite plus_timeframe_1m.
      by eapply before_after_append.
    + simpl in Hs. destruct (loadInitialData_exit now (provider s)) as [p2 pc2] eqn:Hal.
      simplify_eq. pose proof (order_inv_loadInitialData_exit now (provider s) Htf Hasc) as H.
      by rewrite Hal in H.
  - (* the sleep elapses *)
    assert (Hnil : inflight s = []) by (apply Hbf; unfold backfilling; by rewrite Hpc).
    rewrite Hnil in Hs. destruct (allCandlesLoaded v).
    + destruct (loadInitialData_exit now (provider s)) as [p2 pc2] eqn:Hal.
      simplify_eq. pose proof (order_inv_loadInitialData_exit now (provider s) Htf Hasc) as H.
      by rewrite Hal in H.
    + simplify_eq. unfold order_inv, backfilling. simpl.
      split; [done|]. split; [done|]. split; [|by split; [|left]].
      intros v' [Hv|Hv]; simplify_eq. apply Hnext. by right.
  - (* the poll of #start *)
    destruct (isReady (provider s)); simplify_eq; [|exact Hinv].
    unfold order_inv, backfilling. simpl.
    split; [done|]. split; [done|]. split; [|done].
    intros v' [Hv|Hv]; simplify_eq.
  - (* the watcher fires *)
    simpl in Hno.
    destruct (isReady (provider s)); [|simplify_eq; exact Hinv].
    unfold startWatchingForNewOHLCV_request, Deque.back in Hs.
    destruct (last (deque (provider s))) as [b|] eqn:Hl; simpl in Hs; simplify_eq.
    + unfold order_inv, backfilling. simpl. rewrite Hno. simpl.
      split; [done|]. split; [done|]. split; [intros v' [Hv|Hv]; simplify_eq|].
      split; [done|]. right. eexists. split; [done|].
      rewrite Htf, plus_timeframe_1m. by apply ascending_before_back.
    + unfold order_inv, backfilling. simpl.
      split; [done|]. split; [done|]. split; [intros v' [Hv|Hv]; simplify_eq|].
      split; [done|]. by left.
  - (* the fetch of a tick settles *)
    simpl in Hfc.
    destruct (inflight s !! i) as [since|] eqn:Hi; [|done].
    destruct Hin as [Hin|(since' & Hin & Hbefore)]; [by rewrite Hin in Hi|].
    rewrite Hin in Hi, Hs. destruct i as [|i]; [|done]. simpl in Hi, Hs. simplify_eq.
    unfold order_inv, backfilling. simpl.
    destruct r as [chunk|].
    + destruct (resume_fields now chunk (provider s)) as [-> ->].
      destruct Hfc as [Hc Hge].
      split; [done|]. split.
      { apply removeOldCandles_loop_keeps_ascending. by eapply append_ascending. }
      split; [intros v' [Hv|Hv]; simplify_eq|]. split; [done|]. by left.
    + simpl. split; [done|]. split; [done|].
      split; [intros v' [Hv|Hv]; simplify_eq|]. split; [done|]. by left.
Qed.

Lemma order_inv_init s0 : from_constructor s0 → order_inv s0.
Proof.
  intros Hc. apply constructor_state in Hc as (now & sym & d & ui & lim & ->).
  unfold order_inv, backfilling. simpl.
  split; [done|]. split; [constructor|]. split; [|by split; [|left]].
  intros v [Hv|Hv]; simplify_eq. simpl. eexists. split; [done|constructor].
Qed.

Lemma order_inv_run es : ∀ s s',
  order_inv s → all_steps fetch_contract s es → all_steps no_overlap s es →
  run s es = Some s' → order_inv s'.
Proof.
  induction es as [|e es IH]; intros s s' Hinv Hfc Hno Hrun; simpl in *.
  - by simplify_eq.
  - destruct Hfc as [Hfc Hfcs]. destruct Hno as [Hno Hnos].
    destruct (step s e) as [s1|] eqn:Hs; [|done].
    eapply IH; [|done..]. by eapply order_inv_step.
Qed.

Lemma all_steps_cons (P : State → Event → Prop) s e es s1 :
  P s e → step s e = Some s1 → all_steps P s1 es → all_steps P s (e :: es).
Proof. intros HP Hs Hrest. simpl. by rewrite Hs. Qed.

Ltac contract_holds :=
  cbn;
  repeat match goal with
         | |- _ ∧ _ => split
         | |- True => exact I
         | |- ascending _ => unfold ascending
         | |- StronglySorted _ _ => constructor
         | |- Forall _ _ => constructor
         | |- at_or_after _ _ =>
             let Heq := fresh in
             intros ? Heq; vm_compute in Heq; injection Heq as <-; cbn; lia
         | |- (_ ≤ _)%Z => cbn; lia
         | |- _ = _ => reflexivity
         end.

(** Checks the first event of a concrete run against [P] and moves on to
    the state it leads to. *)
Ltac check_event :=
  match goal with
  | |- all_steps ?P ?s (?e :: ?es) =>
      let r := eval vm_compute in (step s e) in
      match r with
      | Some ?s1 =>
          apply (all_steps_cons P s e es s1);
          [solve [contract_holds] | vm_compute; reflexivity | ]
      end
  end.

Lemma overlapping_ticks_respect_contract :
  all_steps fetch_contract one_day_start overlapping_ticks_events.
Proof.
  unfold overlapping_ticks_events, backfill_events. simpl app.
  repeat check_event. exact I.
Qed.

(** C9, as stated, fails: every fetch of the run [overlapping_ticks_events]
    returns ascending candles at or after the time it was asked for, yet
    the buffer ends out of order.  The watcher fired a second time while
    the fetch of the first tick was outstanding, both fetches asked for
    candles from 60000 on, and both answers were appended. *)
Lemma overlapping_ticks_break_order :
  from_constructor one_day_start ∧
  all_steps fetch_contract one_day_start overlapping_ticks_events ∧
  ∃ s, run one_day_start overlapping_ticks_events = Some s ∧
       deque (provider s)
       = [candle_at 0; candle_at 60000; candle_at 120000;
          candle_at 60000; candle_at 120000] ∧
       ¬ ascending (deque (provider s)).
Proof.
  split; [apply one_day_start_from_constructor|].
  split; [apply overlapping_ticks_respect_contract|].
  eexists. split; [reflexivity|]. split; [reflexivity|].
  intros Hasc.
  apply (StronglySorted_app _ [candle_at 0; candle_at 60000; candle_at 120000]
           [candle_at 60000; candle_at 120000]) in Hasc as (Hcross & _ & _).
  specialize (Hcross (candle_at 120000) (candle_at 60000)).
  simpl in Hcross. apply Zle_not_lt in Hcross; [|by repeat constructor..].
  apply Hcross. lia.
Qed.

(** C9, amended. Assume every fetch returns candles in ascending timestamp
    order, none before the requested [since], and assume no tick of the
    watcher fires while the fetch of an earlier tick is outstanding.  Then
    in every state the provider reaches the buffer is in non-decreasing
    timestamp order by position, and when it is not empty its front
    timestamp is at most its back timestamp.  Backfill appends, live-tick
    appends and evictions all preserve this. *)
Theorem buffer_ascending s0 es s :
  from_constructor s0 →
  all_steps fetch_contract s0 es →
  all_steps no_overlap s0 es →
  run s0 es = Some s →
  ascending (deque (provider s)) ∧
  ∀ f b, getFirst (provider s) = Return (Some f) →
         getLast (provider s) = Return (Some b) →
         timestamp f ≤ timestamp b.
Proof.
  intros Hc Hfc Hno Hrun.
  pose proof (order_inv_run es s0 s (order_inv_init s0 Hc) Hfc Hno Hrun)
    as (_ & Hasc & _).
  split; [done|]. unfold getFirst, getLast. intros f b Hf Hb. simplify_eq.
  by eapply ascending_front_back.
Qed.

Lemma sequential_ticks_respect_contract :
  all_steps fetch_contract one_day_start sequential_ticks_events ∧
  all_steps no_overlap one_day_start sequential_ticks_events.
Proof.
  unfold sequential_ticks_events, backfill_events. simpl app.
  split; repeat check_event; exact I.
Qed.

Lemma buffer_ascending_witness :
  ∃ s, run one_day_start sequential_ticks_events = Some s ∧
       deque (provider s) = [candle_at 0; candle_at 60000; candle_at 120000] ∧
       ascending (deque (provider s)).
Proof.
  eexists. split; [reflexivity|]. split; [reflexivity|].
  refine (proj1 (buffer_ascending one_day_start sequential_ticks_events _
                   one_day_start_from_constructor
                   (proj1 sequential_ticks_respect_contract)
                   (proj2 sequential_ticks_respect_contract) _)).
  reflexivity.
Defined.

(** * Further properties of the class *)

(** ** The window maintainer on arbitrary buffers *)

(** X1. Whatever the order of the buffer, #removeOldCandles removes exactly
    the longest front run of candles older than the window: the buffer is
    the removed run followed by what is left, every removed candle is
    stale, what is left does not start with a stale candle, and the
    configuration and [isReady] are untouched. *)
Theorem removeOldCandles_front_run now p :
  let p' := (removeOldCandles now p).2 in
  let cutoff := getTimestampForDaysAgo now (days p) in
  (∃ evicted, deque p = evicted ++ deque p' ∧
              Forall (λ c, timestamp c < cutoff) evicted) ∧
  match Deque.front (deque p') with
  | Some c => cutoff ≤ timestamp c
  | None => True
  end ∧
  configuration p' = configuration p ∧ isReady p' = isReady p.
Proof.
  intros p' cutoff.
  destruct (removeOldCandles_fields now p)
    as (Hsy & Htf & Hda & Hui & Hli & Hre & Hd & Hr).
  fold p' in Hsy, Htf, Hda, Hui, Hli, Hre, Hd. fold cutoff in Hd, Hr.
  destruct (removeOldCandles_loop_split cutoff (deque p)) as (ev & Heq & Hev & Hres).
  rewrite <- Hd in Heq, Hres.
  split; [by exists ev|]. split.
  - destruct ((removeOldCandles_loop cutoff (deque p)).1).
    + destruct Hres as (c & rest & -> & Hle). done.
    + destruct Hres as [_ ->]. done.
  - unfold configuration. by rewrite Hsy, Htf, Hda, Hui, Hli.
Qed.

Lemma removeOldCandles_loop_faults sinceDate d :
  (removeOldCandles_loop sinceDate d).1 ≠ Return () →
  (removeOldCandles_loop sinceDate d).1 = Throw TypeError ∧
  (removeOldCandles_loop sinceDate d).2 = [] ∧
  Forall (λ c, timestamp c < sinceDate) d.
Proof.
  intros Hne.
  destruct (removeOldCandles_loop_split sinceDate d) as (ev & Heq & Hev & Hres).
  destruct ((removeOldCandles_loop sinceDate d).1) as [[]|e]; [done|].
  destruct Hres as [-> Hnil]. rewrite Hnil, app_nil_r in Heq. by subst ev.
Qed.

(** X2. #removeOldCandles returns normally exactly when the buffer holds a
    candle inside the window.  Otherwise (an empty buffer, or every candle
    stale) it throws a TypeError and leaves the buffer empty. *)
Theorem removeOldCandles_returns_iff now p :
  let cutoff := getTimestampForDaysAgo now (days p) in
  ((removeOldCandles now p).1 = Return () ↔
   ∃ c, c ∈ deque p ∧ cutoff ≤ timestamp c) ∧
  ((removeOldCandles now p).1 ≠ Return () →
   (removeOldCandles now p).1 = Throw TypeError ∧
   deque (removeOldCandles now p).2 = []).
Proof.
  intros cutoff.
  destruct (removeOldCandles_fields now p) as (_ & _ & _ & _ & _ & _ & Hd & Hr).
  fold cutoff in Hd, Hr. rewrite Hr, Hd. split; [split|].
  - intros Hret.
    destruct (removeOldCandles_loop_split cutoff (deque p)) as (ev & Heq & _ & Hres).
    rewrite Hret in Hres. destruct Hres as (c & rest & Hk & Hle).
    exists c. split; [|done]. rewrite Heq, Hk. apply elem_of_app. right. by left.
  - intros (c & Hin & Hle). by eapply removeOldCandles_loop_returns.
  - intros Hne. by destruct (removeOldCandles_loop_faults cutoff (deque p) Hne) as (? & ? & _).
Qed.

Lemma removeOldCandles_returns_iff_witness :
  (removeOldCandles 250 stale_and_fresh).1 = Return () ∧
  (removeOldCandles 1000 stale_and_fresh).1 = Throw TypeError.
Proof.
  split.
  - apply (proj2 (proj1 (removeOldCandles_returns_iff 250 stale_and_fresh))).
    exists (candle_at 300). split; [|by vm_compute].
    unfold stale_and_fresh, sample_provider. simpl. by repeat constructor.
  - apply (proj2 (removeOldCandles_returns_iff 1000 stale_and_fresh)).
    vm_compute. discriminate.
Defined.

Lemma removeOldCandles_loop_later s1 s2 d :
  s1 ≤ s2 →
  removeOldCandles_loop s2 (removeOldCandles_loop s1 d).2
  = removeOldCandles_loop s2 d.
Proof.
  intros Hle. induction d as [|c d IH]; [done|]. simpl.
  case_bool_decide as H1.
  - rewrite IH. by rewrite bool_decide_eq_true_2 by lia.
  - done.
Qed.

(** X3. Maintainer passes compose: a pass at clock [now1] followed by a
    pass at a later clock [now2] has the result and the buffer of the
    single pass at [now2].  In particular a second pass at the same clock
    changes nothing. *)
Theorem removeOldCandles_twice now1 now2 p :
  now1 ≤ now2 →
  removeOldCandles now2 (removeOldCandles now1 p).2 = removeOldCandles now2 p.
Proof.
  intros Hle. unfold removeOldCandles.
  destruct (removeOldCandles_loop (getTimestampForDaysAgo now1 (days p)) (deque p))
    as [r1 d1] eqn:H1. simpl.
  assert (Hl : removeOldCandles_loop (getTimestampForDaysAgo now2 (days p)) d1
               = removeOldCandles_loop (getTimestampForDaysAgo now2 (days p)) (deque p)).
  { replace d1 with (removeOldCandles_loop
                       (getTimestampForDaysAgo now1 (days p)) (deque p)).2
      by by rewrite H1.
    apply removeOldCandles_loop_later. unfold getTimestampForDaysAgo. lia. }
  rewrite Hl. by destruct (removeOldCandles_loop _ (deque p)).
Qed.

Lemma removeOldCandles_twice_witness :
  removeOldCandles 250 (removeOldCandles 150 stale_and_fresh).2
  = removeOldCandles 250 stale_and_fresh.
Proof. apply removeOldCandles_twice. lia. Defined.

(** ** The read accessors *)

Lemma foldl_snoc (l acc : list Candle) :
  foldl (λ array element, array ++ [element]) acc l = acc ++ l.
Proof.
  revert acc. induction l as [|x l IH]; intros acc; simpl.
  - by rewrite app_nil_r.
  - rewrite IH. by rewrite <- app_assoc.
Qed.

(** X4. getAllInArray() returns the candles of the buffer in position
    order: the array has [size()] entries, its entry [i] is the candle
    that [get(i)] returns, and its first and last entries are what
    getFirst() and getLast() return. *)
Theorem getAllInArray_positions p :
  Z.of_nat (length (getAllInArray p)) = Deque.size (deque p) ∧
  (∀ (i : nat) c, getAllInArray p !! i = Some c ↔ get (Z.of_nat i) p = Return c) ∧
  getFirst p = Return (head (getAllInArray p)) ∧
  getLast p = Return (last (getAllInArray p)).
Proof.
  assert (Harr : getAllInArray p = deque p).
  { unfold getAllInArray. by rewrite foldl_snoc. }
  rewrite Harr. split; [done|]. split; [|done].
  intros i c. unfold get, Deque.getElementByPos, Deque.size, Deque.t in *.
  rewrite Nat2Z.id. split.
  - intros Hi. rewrite bool_decide_eq_true_2; [by rewrite Hi|].
    apply lookup_lt_Some in Hi. lia.
  - case_bool_decide; [|intros [=]].
    match goal with
    | |- context [match ?o with _ => _ end] => destruct o as [c'|]
    end; intros [=]. by subst.
Qed.

Lemma getAllInArray_positions_witness :
  getAllInArray three_candles !! 1%nat = Some (candle_at 200).
Proof.
  apply (proj1 (proj2 (getAllInArray_positions three_candles))). reflexivity.
Defined.

(** ** What a run never changes *)

Lemma loadInitialData_body_configuration p v r :
  configuration (loadInitialData_body p v r).1.1 = configuration p.
Proof.
  unfold loadInitialData_body. destruct r as [chunk|]; [|done].
  case_bool_decide; [done|]. by destruct (after_append _ chunk).
Qed.

Lemma removeOldCandles_configuration now p :
  configuration (removeOldCandles now p).2 = configuration p.
Proof.
  destruct (removeOldCandles_fields now p) as (Hsy & Htf & Hda & Hui & Hli & _).
  unfold configuration. by rewrite Hsy, Htf, Hda, Hui, Hli.
Qed.

Lemma loadInitialData_exit_configuration now p :
  configuration (loadInitialData_exit now p).1 = configuration p.
Proof.
  rewrite loadInitialData_exit_unfold.
  pose proof (removeOldCandles_configuration now p) as Hc.
  by destruct (removeOldCandles now p).1.
Qed.

Lemma resume_configuration now r p :
  configuration (startWatchingForNewOHLCV_resume now r p) = configuration p.
Proof.
  unfold startWatchingForNewOHLCV_resume. destruct r as [chunk|]; [|done].
  set (p1 := set_deque _ p).
  pose proof (removeOldCandles_configuration now p1) as Hc.
  by destruct (removeOldCandles now p1) as [[[]|e] p2].
Qed.

Lemma step_configuration s e s' :
  step s e = Some s' → configuration (provider s') = configuration (provider s).
Proof.
  unfold step, start_poll, startMonitoring_tick.
  destruct e as [r now|now| | |i r now], (pc s) as [v|v| | |] eqn:Hpc;
    try discriminate; intros Hs.
  - pose proof (loadInitialData_body_configuration (provider s) v r) as Hb.
    destruct (loadInitialData_body (provider s) v r) as [[p1 v1] [|]];
      cbn [fst] in Hb.
    + pose proof (loadInitialData_exit_configuration now p1) as He.
      destruct (loadInitialData_exit now p1) as [p2 pc2].
      injection Hs as <-. cbn [fst provider] in *. congruence.
    + injection Hs as <-. exact Hb.
  - destruct (allCandlesLoaded v).
    + pose proof (loadInitialData_exit_configuration now (provider s)) as He.
      destruct (loadInitialData_exit now (provider s)) as [p2 pc2].
      injection Hs as <-. exact He.
    + by injection Hs as <-.
  - injection Hs as <-. by destruct (isReady (provider s)).
  - injection Hs as <-. destruct (isReady (provider s)); [|done].
    by destruct (startWatchingForNewOHLCV_request (provider s)).
  - destruct (inflight s !! i); [|done]. injection Hs as <-.
    apply resume_configuration.
Qed.

Lemma run_configuration es : ∀ s s',
  run s es = Some s' → configuration (provider s') = configuration (provider s).
Proof.
  induction es as [|e es IH]; intros s s' Hrun; simpl in Hrun; [by simplify_eq|].
  destruct (step s e) as [s1|] eqn:Hs; [|done].
  rewrite (IH s1 s' Hrun). by eapply step_configuration.
Qed.

(** X6. No step of the provider writes the configuration: after any run
    [symbol], [timeframe], [days], [updateInterval] and [limit] are the
    values the constructor stored. *)
Theorem configuration_never_changes s es s' :
  run s es = Some s' → configuration (provider s') = configuration (provider s).
Proof.
  revert s. induction es as [|e es IH]; intros s Hrun; simpl in Hrun.
  - by simplify_eq.
  - destruct (step s e) as [s1|] eqn:Hs; [|done].
    rewrite (IH s1 Hrun). by eapply step_configuration.
Qed.

Lemma configuration_never_changes_witness :
  ∃ s', run one_day_start sequential_ticks_events = Some s' ∧
        configuration (provider s') = configuration (provider one_day_start).
Proof.
  eexists. split; [reflexivity|].
  apply (configuration_never_changes one_day_start sequential_ticks_events).
  reflexivity.
Defined.

(** ** Phases of the background activity *)

Lemma step_phase s e s' :
  step s e = Some s' →
  (backfilling s = false → backfilling s' = false) ∧
  (pc s = PcMonitoring → pc s' = PcMonitoring).
Proof.
  unfold step, start_poll, startMonitoring_tick, backfilling.
  destruct e as [r now|now| | |i r now], (pc s) as [v|v| | |] eqn:Hpc;
    try discriminate; intros Hs; split; try done.
  - destruct (isReady (provider s)); simplify_eq; simpl; by rewrite ?Hpc.
  - destruct (isReady (provider s)); [|simplify_eq; by rewrite Hpc].
    destruct (startWatchingForNewOHLCV_request (provider s)); by simplify_eq.
  - destruct (isReady (provider s)); [|simplify_eq; by rewrite Hpc].
    destruct (startWatchingForNewOHLCV_request (provider s)); by simplify_eq.
  - destruct (inflight s !! i); [|done]. by simplify_eq.
  - destruct (inflight s !! i); [|done]. by simplify_eq.
Qed.

(** X7. The backfill runs once and the watcher is never stopped: once the
    loop of #loadInitialData has been left no later step re-enters it, and
    once #startMonitoring has installed the watcher every later state still
    has it running (no method clears it). *)
Theorem phases_only_advance s es s' :
  run s es = Some s' →
  (backfilling s = false → backfilling s' = false) ∧
  (pc s = PcMonitoring → pc s' = PcMonitoring).
Proof.
  revert s. induction es as [|e es IH]; intros s Hrun; simpl in Hrun.
  - by simplify_eq.
  - destruct (step s e) as [s1|] eqn:Hs; [|done].
    destruct (step_phase s e s1 Hs) as [Hb Hm].
    destruct (IH s1 Hrun) as [Hb' Hm']. split; auto.
Qed.

Lemma phases_only_advance_witness :
  ∃ s', run (mkState three_candles PcMonitoring [])
            [EvTick; EvTickDone 0 Failed dayMillis; EvTick] = Some s' ∧
        pc s' = PcMonitoring.
Proof.
  assert (H : run (mkState three_candles PcMonitoring [])
                  [EvTick; EvTickDone 0 Failed dayMillis; EvTick]
              = Some (mkState (set_isReady false three_candles) PcMonitoring []))
    by (vm_compute; reflexivity).
  eexists. split; [exact H|].
  exact (proj2 (phases_only_advance _ _ _ H) eq_refl).
Defined.

(** ** What the exchange is asked for *)

Lemma reachable_timeframe s : reachable s → timeframe (provider s) = "1m"%string.
Proof.
  intros (s0 & es & Hc & Hrun).
  apply constructor_state in Hc as (now & sym & d & ui & lim & ->).
  apply run_configuration in Hrun. unfold configuration in Hrun.
  simpl in Hrun. congruence.
Qed.

Lemma reachable_step s e s' : reachable s → step s e = Some s' → reachable s'.
Proof.
  intros (s0 & es & Hc & Hrun) Hs. exists s0, (es ++ [e]). split; [done|].
  clear Hc. revert s0 Hrun. induction es as [|x es IH]; intros s0 Hrun; simpl in *.
  - simplify_eq. by rewrite Hs.
  - destruct (step s0 x); [|done]. by apply IH.
Qed.

Lemma backfill_since_step s e s' :
  timeframe (provider s) = "1m"%string →
  (∀ v, pc s = PcFetching v ∨ pc s = PcSleeping v → ∃ t, nextCandleTime v = Num t) →
  Forall (λ x, ∃ t, x = Num t) (inflight s) →
  step s e = Some s' →
  (∀ v, pc s' = PcFetching v ∨ pc s' = PcSleeping v → ∃ t, nextCandleTime v = Num t) ∧
  Forall (λ x, ∃ t, x = Num t) (inflight s').
Proof.
  intros Htf Hnext Hin. unfold step, start_poll, startMonitoring_tick.
  destruct e as [r now|now| | |i r now], (pc s) as [v|v| | |] eqn:Hpc;
    try discriminate; intros Hs.
  - destruct r as [[|c chunk]|].
    + simpl in Hs. destruct (loadInitialData_exit_fields now (provider s)) as (_ & _ & Hp).
      destruct (loadInitialData_exit now (provider s)) as [p2 pc2].
      injection Hs as <-. simpl in *. split; [|done].
      intros v' [Hv|Hv]; destruct Hp; congruence.
    + unfold loadInitialData_body in Hs.
      rewrite bool_decide_eq_false_2 in Hs by (simpl; lia).
      rewrite pushBack_each_app in Hs.
      destruct (after_append_nonempty (provider s) (deque (provider s)) c chunk)
        as (f & b & _ & _ & _ & Haa).
      rewrite Haa in Hs. injection Hs as <-. simpl. split; [|done].
      intros v' [Hv|Hv]; simplify_eq. simpl. rewrite Htf, plus_timeframe_1m. eauto.
    + simpl in Hs. destruct (loadInitialData_exit_fields now (provider s)) as (_ & _ & Hp).
      destruct (loadInitialData_exit now (provider s)) as [p2 pc2].
      injection Hs as <-. simpl in *. split; [|done].
      intros v' [Hv|Hv]; destruct Hp; congruence.
  - destruct (allCandlesLoaded v).
    + destruct (loadInitialData_exit_fields now (provider s)) as (_ & _ & Hp).
      destruct (loadInitialData_exit now (provider s)) as [p2 pc2].
      injection Hs as <-. simpl in *. split; [|done].
      intros v' [Hv|Hv]; destruct Hp; congruence.
    + injection Hs as <-. simpl. split; [|done].
      intros v' [Hv|Hv]; simplify_eq. apply Hnext. by right.
  - injection Hs as <-. destruct (isReady (provider s)); simpl; [|by rewrite Hpc].
    split; [|done]. intros v' [Hv|Hv]; discriminate.
  - injection Hs as <-. destruct (isReady (provider s)); [|by rewrite Hpc].
    unfold startWatchingForNewOHLCV_request.
    destruct (Deque.back (deque (provider s))) as [b|]; simpl.
    + split; [intros v' [Hv|Hv]; discriminate|].
      apply Forall_app. split; [done|]. constructor; [|done].
      rewrite Htf, plus_timeframe_1m. eauto.
    + split; [intros v' [Hv|Hv]; discriminate|done].
  - destruct (inflight s !! i); [|done]. injection Hs as <-. simpl.
    split; [intros v' [Hv|Hv]; discriminate|].
    rewrite delete_take_drop. apply Forall_app.
    split; [by apply Forall_take|by apply Forall_drop].
Qed.

(** X8. Every [since] handed to fetchOHLCV is a number.  The registry
    lookup [TIMEFRAMES_IN_MILLISECONDS[this.#timeframe]] that is added to a
    timestamp never misses, because the constructor admits registered
    timeframes only: in every reachable state the pending backfill request
    time and every outstanding tick request are numbers, never NaN. *)
Theorem request_times_are_numbers s :
  reachable s →
  (∀ v, pc s = PcFetching v ∨ pc s = PcSleeping v → ∃ t, nextCandleTime v = Num t) ∧
  Forall (λ since, ∃ t, since = Num t) (inflight s).
Proof.
  intros Hr. pose proof Hr as (s0 & es & Hc & Hrun).
  assert (Hr0 : reachable s0) by (by exists s0, []).
  assert (H0 : (∀ v, pc s0 = PcFetching v ∨ pc s0 = PcSleeping v →
                     ∃ t, nextCandleTime v = Num t) ∧
               Forall (λ since, ∃ t, since = Num t) (inflight s0)).
  { apply constructor_state in Hc as (now & sym & d & ui & lim & ->). simpl.
    split; [|done]. intros v [Hv|Hv]; simplify_eq. simpl. eauto. }
  clear Hc Hr. revert s0 Hr0 H0 Hrun.
  induction es as [|e es IH]; intros s0 Hr0 H0 Hrun; simpl in Hrun.
  - by simplify_eq.
  - destruct (step s0 e) as [s1|] eqn:Hs; [|done].
    apply (IH s1); [by eapply reachable_step| |done].
    destruct H0 as [Hn Hi].
    eapply backfill_since_step; [by apply reachable_timeframe|done..].
Qed.

Lemma reachable_run es s :
  run one_day_start es = Some s → reachable s.
Proof.
  intros Hrun. exists one_day_start, es.
  split; [apply one_day_start_from_constructor|done].
Qed.

Lemma request_times_are_numbers_witness :
  ∃ s, run one_day_start (backfill_events ++ [EvTick; EvTick]) = Some s ∧
       Forall (λ since, ∃ t, since = Num t) (inflight s).
Proof.
  assert (H : run one_day_start (backfill_events ++ [EvTick; EvTick])
              = Some (mkState (mkProvider "BTC/USDT" "1m" 1 10000 1000
                                          [candle_at 0] true)
                              PcMonitoring [Num 60000; Num 60000]))
    by (vm_compute; reflexivity).
  eexists. split; [exact H|].
  exact (proj2 (request_times_are_numbers _ (reachable_run _ _ H))).
Defined.

(** ** Availability and the buffer *)

(** X9. Whenever isDataAvailable() is true the buffer is not empty:
    getFirst() and getLast() then return a candle, never [undefined]. *)
Theorem available_means_nonempty s :
  reachable s → isDataAvailable (provider s) = true →
  ∃ f b, getFirst (provider s) = Return (Some f) ∧
         getLast (provider s) = Return (Some b).
Proof.
  intros Hr Ha. destruct (ready_inv_reachable s Hr) as [_ Hne].
  specialize (Hne Ha). unfold getFirst, getLast, Deque.front, Deque.back.
  destruct (head (deque (provider s))) as [f|] eqn:Hf;
    [|apply head_None in Hf; done].
  destruct (last (deque (provider s))) as [b|] eqn:Hb;
    [|apply last_None in Hb; done].
  by exists f, b.
Qed.

Lemma available_means_nonempty_witness :
  ∃ s f b, run one_day_start backfill_events = Some s ∧
           getFirst (provider s) = Return (Some f) ∧
           getLast (provider s) = Return (Some b).
Proof.
  assert (H : run one_day_start backfill_events
              = Some (mkState (mkProvider "BTC/USDT" "1m" 1 10000 1000
                                          [candle_at 0] true) PcMonitoring []))
    by (vm_compute; reflexivity).
  destruct (available_means_nonempty _ (reachable_run _ _ H) eq_refl)
    as (f & b & Hf & Hb).
  eexists _, f, b. split; [exact H|]. split; [exact Hf|exact Hb].
Defined.

(** ** The backfill as a whole *)

Lemma received_app es1 es2 : received (es1 ++ es2) = received es1 ++ received es2.
Proof.
  induction es1 as [|e es1 IH]; [done|]. simpl.
  destruct e as [[chunk|] now|now| | |i r now]; try done.
  by rewrite IH, app_assoc.
Qed.

(** A step that ends inside the backfill loop started inside it, and the
    buffer grew by exactly the chunk the step delivered. *)
Lemma backfill_step s e s' :
  step s e = Some s' → backfilling s' = true →
  backfilling s = true ∧
  deque (provider s') = deque (provider s) ++ received [e].
Proof.
  unfold step, start_poll, startMonitoring_tick, backfilling.
  destruct e as [r now|now| | |i r now], (pc s) as [v|v| | |] eqn:Hpc;
    try discriminate; intros Hs Hb'.
  - destruct r as [[|c chunk]|].
    + simpl in Hs. destruct (loadInitialData_exit_fields now (provider s)) as (_ & _ & Hp).
      destruct (loadInitialData_exit now (provider s)) as [p2 pc2].
      injection Hs as <-. simpl in *. destruct Hp as [->| ->]; discriminate.
    + unfold loadInitialData_body in Hs.
      rewrite bool_decide_eq_false_2 in Hs by (simpl; lia).
      rewrite pushBack_each_app in Hs.
      destruct (after_append_nonempty (provider s) (deque (provider s)) c chunk)
        as (f & b & _ & _ & _ & Haa).
      rewrite Haa in Hs. injection Hs as <-. simpl. by rewrite app_nil_r.
    + simpl in Hs. destruct (loadInitialData_exit_fields now (provider s)) as (_ & _ & Hp).
      destruct (loadInitialData_exit now (provider s)) as [p2 pc2].
      injection Hs as <-. simpl in *. destruct Hp as [->| ->]; discriminate.
  - destruct (allCandlesLoaded v) eqn:Hl.
    + destruct (loadInitialData_exit_fields now (provider s)) as (_ & _ & Hp).
      destruct (loadInitialData_exit now (provider s)) as [p2 pc2].
      injection Hs as <-. simpl in *. destruct Hp as [->| ->]; discriminate.
    + injection Hs as <-. simpl. by rewrite app_nil_r.
  - injection Hs as <-. destruct (isReady (provider s)); simpl in Hb';
      [discriminate|by rewrite Hpc in Hb'].
  - injection Hs as <-. destruct (isReady (provider s));
      [|by rewrite Hpc in Hb'].
    by destruct (startWatchingForNewOHLCV_request (provider s)).
  - destruct (inflight s !! i); [|done]. by injection Hs as <-.
Qed.

Lemma backfill_run es : ∀ s s',
  run s es = Some s' → backfilling s' = true →
  backfilling s = true ∧
  deque (provider s') = deque (provider s) ++ received es.
Proof.
  induction es as [|e es IH]; intros s s' Hrun Hb; simpl in Hrun.
  - simplify_eq. simpl. by rewrite app_nil_r.
  - destruct (step s e) as [s1|] eqn:Hs; [|done].
    destruct (IH s1 s' Hrun Hb) as [Hb1 Hd1].
    destruct (backfill_step s e s1 Hs Hb1) as [Hb0 Hd0].
    split; [done|]. rewrite Hd1, Hd0, <- app_assoc.
    by rewrite <- received_app.
Qed.

(** X10. While the backfill loop of #loadInitialData has not been left,
    nothing has been evicted or reordered: the buffer is exactly the
    concatenation, in order of arrival, of the chunks the backfill fetches
    have delivered so far. *)
Theorem backfill_buffer_is_received s0 es s :
  from_constructor s0 → run s0 es = Some s → backfilling s = true →
  deque (provider s) = received es.
Proof.
  intros Hc Hrun Hb.
  destruct (backfill_run es s0 s Hrun Hb) as [_ Hd].
  apply constructor_state in Hc as (now & sym & d & ui & lim & ->).
  by rewrite Hd.
Qed.

Lemma backfill_buffer_is_received_witness :
  ∃ s, run one_day_start
           [EvFetchDone (Chunk [candle_at 0]) dayMillis; EvWake dayMillis;
            EvFetchDone (Chunk next_minutes) dayMillis] = Some s ∧
       deque (provider s) = [candle_at 0; candle_at 60000; candle_at 120000].
Proof.
  eexists. split; [reflexivity|].
  apply (backfill_buffer_is_received one_day_start
           [EvFetchDone (Chunk [candle_at 0]) dayMillis; EvWake dayMillis;
            EvFetchDone (Chunk next_minutes) dayMillis]);
    [apply one_day_start_from_constructor|reflexivity..].
Defined.

Lemma backfill_target_step s e s' :
  ((∀ v, pc s = PcFetching v →
         deque (provider s) = [] ∨
         Deque.size (deque (provider s)) < days (provider s) * 24 * 60) ∧
   (∀ v, pc s = PcSleeping v → allCandlesLoaded v = false →
         Deque.size (deque (provider s)) < days (provider s) * 24 * 60)) →
  step s e = Some s' →
  (∀ v, pc s' = PcFetching v →
        deque (provider s') = [] ∨
        Deque.size (deque (provider s')) < days (provider s') * 24 * 60) ∧
  (∀ v, pc s' = PcSleeping v → allCandlesLoaded v = false →
        Deque.size (deque (provider s')) < days (provider s') * 24 * 60).
Proof.
  intros [Hf Hsl]. unfold step, start_poll, startMonitoring_tick.
  destruct e as [r now|now| | |i r now], (pc s) as [v|v| | |] eqn:Hpc;
    try discriminate; intros Hs.
  - destruct r as [[|c chunk]|].
    + simpl in Hs. destruct (loadInitialData_exit_fields now (provider s)) as (_ & _ & Hp).
      destruct (loadInitialData_exit now (provider s)) as [p2 pc2].
      injection Hs as <-. simpl in *.
      split; intros v'; destruct Hp as [->| ->]; discriminate.
    + unfold loadInitialData_body in Hs.
      rewrite bool_decide_eq_false_2 in Hs by (simpl; lia).
      rewrite pushBack_each_app in Hs.
      destruct (after_append_nonempty (provider s) (deque (provider s)) c chunk)
        as (f & b & _ & _ & _ & Haa).
      rewrite Haa in Hs. injection Hs as <-. simpl.
      split; [intros v'; discriminate|].
      intros v' [= <-]. simpl. intros Hl.
      apply orb_false_iff in Hl as [_ Hl]. apply bool_decide_eq_false in Hl. lia.
    + simpl in Hs. destruct (loadInitialData_exit_fields now (provider s)) as (_ & _ & Hp).
      destruct (loadInitialData_exit now (provider s)) as [p2 pc2].
      injection Hs as <-. simpl in *.
      split; intros v'; destruct Hp as [->| ->]; discriminate.
  - destruct (allCandlesLoaded v) eqn:Hl.
    + destruct (loadInitialData_exit_fields now (provider s)) as (_ & _ & Hp).
      destruct (loadInitialData_exit now (provider s)) as [p2 pc2].
      injection Hs as <-. simpl in *.
      split; intros v'; destruct Hp as [->| ->]; discriminate.
    + injection Hs as <-. simpl. split; [|intros v'; discriminate].
      intros v' _. right. by eapply Hsl.
  - injection Hs as <-. destruct (isReady (provider s)); simpl;
      [|rewrite Hpc]; split; intros v'; discriminate.
  - injection Hs as <-. destruct (isReady (provider s)).
    + destruct (startWatchingForNewOHLCV_request (provider s)); simpl;
        split; intros v'; discriminate.
    + rewrite Hpc. split; intros v'; discriminate.
  - destruct (inflight s !! i); [|done]. injection Hs as <-. simpl.
    split; intros v'; discriminate.
Qed.

(** X11. The backfill never asks for more once the size target is met:
    whenever a backfill fetch is outstanding, the buffer is either still
    empty (the first request) or holds fewer than [days * 24 * 60]
    candles. *)
Theorem backfill_fetch_below_target s v :
  reachable s → pc s = PcFetching v →
  deque (provider s) = [] ∨
  Deque.size (deque (provider s)) < days (provider s) * 24 * 60.
Proof.
  intros Hr Hpc.
  assert (H : (∀ v, pc s = PcFetching v →
                    deque (provider s) = [] ∨
                    Deque.size (deque (provider s)) < days (provider s) * 24 * 60) ∧
              (∀ v, pc s = PcSleeping v → allCandlesLoaded v = false →
                    Deque.size (deque (provider s)) < days (provider s) * 24 * 60)).
  { revert Hr. apply reachable_invariant with
      (I := λ s, (∀ v, pc s = PcFetching v →
                       deque (provider s) = [] ∨
                       Deque.size (deque (provider s)) < days (provider s) * 24 * 60) ∧
                 (∀ v, pc s = PcSleeping v → allCandlesLoaded v = false →
                       Deque.size (deque (provider s)) < days (provider s) * 24 * 60)).
    - intros s0 Hc. apply constructor_state in Hc as (now & sym & d & ui & lim & ->).
      simpl. split; [by left|]. intros v'; discriminate.
    - intros s1 e s2. apply backfill_target_step. }
  by eapply (proj1 H).
Qed.

Lemma backfill_fetch_below_target_witness :
  ∃ s v, run one_day_start
             [EvFetchDone (Chunk [candle_at 0]) dayMillis; EvWake dayMillis]
         = Some s ∧ pc s = PcFetching v ∧
         (deque (provider s) = [] ∨
          Deque.size (deque (provider s)) < days (provider s) * 24 * 60).
Proof.
  assert (H : run one_day_start
                [EvFetchDone (Chunk [candle_at 0]) dayMillis; EvWake dayMillis]
              = Some (mkState (mkProvider "BTC/USDT" "1m" 1 10000 1000
                                          [candle_at 0] false)
                              (PcFetching (mkLoopVars false (Num 60000))) []))
    by (vm_compute; reflexivity).
  eexists _, _. split; [exact H|]. split; [reflexivity|].
  exact (backfill_fetch_below_target _ _ (reachable_run _ _ H) eq_refl).
Defined.

Lemma removeOldCandles_loop_return_iff sinceDate d :
  (removeOldCandles_loop sinceDate d).1 = Return () ↔
  ∃ c, c ∈ d ∧ sinceDate ≤ timestamp c.
Proof.
  split.
  - intros Hret.
    destruct (removeOldCandles_loop_split sinceDate d) as (ev & Heq & _ & Hres).
    rewrite Hret in Hres. destruct Hres as (c & rest & Hk & Hle).
    exists c. split; [|done]. rewrite Heq, Hk. apply elem_of_app. right. by left.
  - intros (c & Hin & Hle). by eapply removeOldCandles_loop_returns.
Qed.

Lemma loadInitialData_exit_ready now p :
  isReady p = false →
  (isReady (loadInitialData_exit now p).1 = true ↔
   ∃ c, c ∈ deque p ∧ getTimestampForDaysAgo now (days p) ≤ timestamp c).
Proof.
  intros Hf. rewrite <- removeOldCandles_loop_return_iff.
  destruct (removeOldCandles_fields now p) as (_ & _ & _ & _ & _ & Hr & _ & Hres).
  rewrite <- Hres. rewrite loadInitialData_exit_unfold.
  destruct (removeOldCandles now p).1 as [[]|e]; simpl; [done|].
  simpl in Hr. rewrite Hr, Hf. split; discriminate.
Qed.

(** X12. What the backfill leaves behind.  The step that leaves the loop
    of #loadInitialData reads the clock once; the buffer after it is the
    sequence of all candles received during the backfill with the
    maintainer's front run of stale candles removed, and the provider
    becomes available exactly when one of the received candles is inside
    the window at that clock. *)
Theorem backfill_result s0 es s e s' :
  from_constructor s0 → run s0 es = Some s → backfilling s = true →
  step s e = Some s' → backfilling s' = false →
  ∃ now, (e = EvWake now ∨ ∃ r, e = EvFetchDone r now) ∧
    let cutoff := getTimestampForDaysAgo now (days (provider s0)) in
    deque (provider s') = (removeOldCandles_loop cutoff (received es)).2 ∧
    (isDataAvailable (provider s') = true ↔
     ∃ c, c ∈ received es ∧ cutoff ≤ timestamp c).
Proof.
  intros Hc Hrun Hb Hs Hb'.
  destruct (backfill_run es s0 s Hrun Hb) as [_ Hd].
  assert (Hdays : days (provider s) = days (provider s0)).
  { apply run_configuration in Hrun. unfold configuration in Hrun.
    congruence. }
  assert (Hf : isReady (provider s) = false).
  { apply ready_inv_reachable; [by exists s0, es|done]. }
  apply constructor_state in Hc as (now0 & sym & d & ui & lim & ->).
  simpl in Hd, Hdays. simpl.
  assert (Hexit : ∀ now,
            deque (loadInitialData_exit now (provider s)).1
            = (removeOldCandles_loop (getTimestampForDaysAgo now d) (received es)).2 ∧
            (isDataAvailable (loadInitialData_exit now (provider s)).1 = true ↔
             ∃ c, c ∈ received es ∧ getTimestampForDaysAgo now d ≤ timestamp c)).
  { intros now. rewrite <- Hd, <- Hdays. split.
    - by destruct (loadInitialData_exit_fields now (provider s)) as (_ & -> & _).
    - by apply loadInitialData_exit_ready. }
  revert Hs. unfold step, start_poll, startMonitoring_tick, backfilling in *.
  destruct e as [r now|now| | |i r now], (pc s) as [v|v| | |] eqn:Hpc;
    try discriminate; intros Hs; exists now.
  - split; [right; by exists r|].
    destruct r as [[|c chunk]|].
    + simpl in Hs. specialize (Hexit now).
      destruct (loadInitialData_exit now (provider s)) as [p2 pc2].
      by injection Hs as <-.
    + unfold loadInitialData_body in Hs.
      rewrite bool_decide_eq_false_2 in Hs by (simpl; lia).
      rewrite pushBack_each_app in Hs.
      destruct (after_append_nonempty (provider s) (deque (provider s)) c chunk)
        as (f & b & _ & _ & _ & Haa).
      rewrite Haa in Hs. injection Hs as <-. discriminate Hb'.
    + simpl in Hs. specialize (Hexit now).
      destruct (loadInitialData_exit now (provider s)) as [p2 pc2].
      by injection Hs as <-.
  - split; [by left|]. destruct (allCandlesLoaded v).
    + specialize (Hexit now).
      destruct (loadInitialData_exit now (provider s)) as [p2 pc2].
      by injection Hs as <-.
    + injection Hs as <-. discriminate Hb'.
Qed.

Lemma backfill_result_witness :
  deque (mkProvider "BTC/USDT" "1m" 1 10000 1000 [candle_at 0] true)
  = (removeOldCandles_loop
       (getTimestampForDaysAgo dayMillis (days (provider one_day_start)))
       (received [EvFetchDone (Chunk [candle_at 0]) dayMillis;
                  EvWake dayMillis])).2.
Proof.
  destruct (backfill_result one_day_start
              [EvFetchDone (Chunk [candle_at 0]) dayMillis; EvWake dayMillis]
              (mkState (mkProvider "BTC/USDT" "1m" 1 10000 1000 [candle_at 0] false)
                       (PcFetching (mkLoopVars false (Num 60000))) [])
              (EvFetchDone (Chunk []) dayMillis)
              (mkState (mkProvider "BTC/USDT" "1m" 1 10000 1000 [candle_at 0] true)
                       PcPolling [])
              one_day_start_from_constructor eq_refl eq_refl eq_refl eq_refl)
    as (now & [He|[r He]] & Hd & _); [discriminate He|].
  injection He as _ <-. exact Hd.
Defined.

(** ** A live tick that brings candles *)



(** ** Progress of the backfill requests *)

(** X14. A non-empty chunk moves the backfill on, whatever it holds: the
    pass appends the whole chunk, falls through to the sleep, and sets the
    next request time to the timestamp of the chunk's last candle plus one
    minute (that timestamp and the sum being safe integers).  If moreover
    the chunk respects the fetch contract for a request time [t], the next
    request time is at least [t + 60000], so no range is asked for twice. *)
Theorem backfill_request_advances p v chunk :
  timeframe p = "1m"%string → chunk ≠ [] →
  (∀ c, last chunk = Some c →
        safe_integer (timestamp c) ∧ safe_integer (timestamp c + 60000)) →
  ∃ b v1,
    last chunk = Some b ∧
    loadInitialData_body p v (Chunk chunk)
    = (set_deque (deque p ++ chunk) p, v1, ToSleep) ∧
    nextCandleTime v1 = Num (timestamp b + 60000) ∧
    ∀ t, chunk_ok (Num t) (Chunk chunk) → t + 60000 ≤ timestamp b + 60000.
Proof.
  intros Htf Hne _. destruct chunk as [|c chunk]; [done|].
  destruct (after_append_nonempty p (deque p) c chunk) as (f & b & _ & _ & Hl & Haa).
  exists b. eexists. split; [done|].
  unfold loadInitialData_body. rewrite bool_decide_eq_false_2 by (simpl; lia).
  rewrite pushBack_each_app, Haa. split; [done|]. simpl.
  rewrite Htf, plus_timeframe_1m. split; [done|].
  intros t [_ Hge]. rewrite Forall_forall in Hge.
  assert (t ≤ timestamp b); [|lia].
  apply (Hge b); [by apply last_Some_elem_of|done].
Qed.

Lemma backfill_request_advances_witness :
  ∃ b v1,
    last next_minutes = Some b ∧
    loadInitialData_body three_candles (mkLoopVars false (Num 60000))
      (Chunk next_minutes)
    = (set_deque (deque three_candles ++ next_minutes) three_candles, v1, ToSleep) ∧
    nextCandleTime v1 = Num (timestamp b + 60000) ∧
    ∀ t, chunk_ok (Num t) (Chunk next_minutes) →
         t + 60000 ≤ timestamp b + 60000.
Proof.
  apply (backfill_request_advances three_candles
           (mkLoopVars false (Num 60000)) next_minutes);
    [reflexivity|discriminate|].
  intros c [= <-]. unfold safe_integer. simpl. lia.
Defined.

(** ** The maintainer as a filter *)

Lemma filter_all_fresh (cutoff : Z) (d : list Candle) :
  Forall (λ c, cutoff ≤ timestamp c) d →
  filter (λ c, cutoff ≤ timestamp c) d = d.
Proof.
  induction 1 as [|c d Hc Hd IH]; [done|].
  rewrite filter_cons_True by done. by rewrite IH.
Qed.

Lemma removeOldCandles_loop_filter cutoff d :
  ascending d →
  (removeOldCandles_loop cutoff d).2 = filter (λ c, cutoff ≤ timestamp c) d.
Proof.
  induction d as [|c d IH]; intros Hasc; [done|]. simpl.
  apply StronglySorted_cons in Hasc as [Hall Hasc].
  case_bool_decide as Hc.
  - rewrite filter_cons_False by lia. by apply IH.
  - rewrite filter_cons_True by lia. simpl. f_equal. symmetry.
    apply filter_all_fresh. eapply Forall_impl; [exact Hall|].
    simpl. intros x Hx. lia.
Qed.

(** X15. On a buffer in ascending timestamp order the maintainer is a
    filter: the buffer after #removeOldCandles is exactly the candles whose
    timestamp is not older than [now - days * 24 * 60 * 60 * 1000], in
    their original order. *)
Theorem removeOldCandles_is_filter now p :
  ascending (deque p) →
  deque (removeOldCandles now p).2
  = filter (λ c, getTimestampForDaysAgo now (days p) ≤ timestamp c) (deque p).
Proof.
  intros Hasc.
  destruct (removeOldCandles_fields now p) as (_ & _ & _ & _ & _ & _ & -> & _).
  by apply removeOldCandles_loop_filter.
Qed.

Lemma removeOldCandles_is_filter_witness :
  deque (removeOldCandles 250 stale_and_fresh).2
  = filter (λ c, getTimestampForDaysAgo 250 (days stale_and_fresh) ≤ timestamp c)
           (deque stale_and_fresh).
Proof.
  apply removeOldCandles_is_filter.
  unfold ascending, stale_and_fresh, sample_provider. simpl.
  repeat constructor; simpl; lia.
Defined.
